(** * Transport maps of [cpbd/high_order.py]

    A shallow embedding of the closed-form map builder [t_nnn], the edge
    corrections [fringe_ent] and [fringe_ext], the Hamiltonian evaluator
    [H23], the symplectic steppers [verlet], [verlet1O] and [sym_map], the
    Runge-Kutta tracker [rk_track_in_field] / [rk_field] with its helper
    [moments], and the undulator tracker [track_und_weave] with its C code.

    The arithmetic of the program is carried out over the real numbers:
    rounding and overflow of binary floating point are not represented.
    What is represented is definedness.  A value of type [num] is either a
    real number or [Undef]; [Undef] stands for the [inf] or [nan] that NumPy
    returns in band for an operation without a real value (a division by
    zero, a real square root of a negative number).  Every operation is
    strict: once a value is [Undef], whatever is computed from it is
    [Undef].

    A division of one Python float by another is a different matter: with a
    zero divisor it raises [ZeroDivisionError] and the function returns
    nothing.  [verlet], [rk_track_in_field], [rk_field] and
    [track_und_weave] return an [option]; [None] is the raised exception.
    [H23] and [verlet1O] are kept on [num]: their only divisors are [beta],
    [2 beta] and [beta (1 + beta)], and what is proved of them assumes that
    these are not zero. *)

From Stdlib Require Import Reals Lra Lia List ZArith Bool PeanoNat.
Import ListNotations.

Open Scope R_scope.

(** ** Numbers with an undefined value *)

Inductive num : Type :=
| Fin (r : R)
| Undef.

Coercion Fin : R >-> num.

Declare Scope num_scope.
Delimit Scope num_scope with num.
Bind Scope num_scope with num.

Definition Reqb (x y : R) : bool := if Req_dec_T x y then true else false.
Definition Rltb (x y : R) : bool := if Rlt_dec x y then true else false.
Definition Rleb (x y : R) : bool := if Rle_dec x y then true else false.

Definition nadd (a b : num) : num :=
  match a, b with Fin x, Fin y => Fin (x + y) | _, _ => Undef end.
Definition nsub (a b : num) : num :=
  match a, b with Fin x, Fin y => Fin (x - y) | _, _ => Undef end.
Definition nmul (a b : num) : num :=
  match a, b with Fin x, Fin y => Fin (x * y) | _, _ => Undef end.
Definition nneg (a : num) : num :=
  match a with Fin x => Fin (- x) | Undef => Undef end.

(** [a / b]: no value when the divisor is zero. *)
Definition ndiv (a b : num) : num :=
  match a, b with
  | Fin x, Fin y => if Reqb y 0 then Undef else Fin (x / y)
  | _, _ => Undef
  end.

(** [numpy.sqrt] on a real: no value below zero. *)
Definition nsqrt (a : num) : num :=
  match a with
  | Fin x => if Rltb x 0 then Undef else Fin (sqrt x)
  | Undef => Undef
  end.

Definition ncos (a : num) : num :=
  match a with Fin x => Fin (cos x) | Undef => Undef end.
Definition nsin (a : num) : num :=
  match a with Fin x => Fin (sin x) | Undef => Undef end.

(** [numpy.tan].  It returns a finite number at every finite
    floating-point argument, none of which is an odd multiple of [pi/2];
    it is total here as well, with the tangent [sin x / cos x] of the
    Standard Library, which is the tangent wherever the cosine is not
    zero. *)
Definition ntan (a : num) : num :=
  match a with
  | Fin x => Fin (tan x)
  | Undef => Undef
  end.

(** [a ** 2]. *)
Definition nsqr (a : num) : num := nmul a a.

(** Comparisons; a comparison with an undefined value behaves as one with
    [nan]: [!=] holds, every other one fails. *)
Definition neqb (a b : num) : bool :=
  match a, b with Fin x, Fin y => Reqb x y | _, _ => false end.
Definition nneqb (a b : num) : bool := negb (neqb a b).
Definition ngtb (a b : num) : bool :=
  match a, b with Fin x, Fin y => Rltb y x | _, _ => false end.

Arguments nadd !a !b /.
Arguments nsub !a !b /.
Arguments nmul !a !b /.
Arguments nneg !a /.
Arguments ndiv !a !b /.
Arguments nsqrt !a /.
Arguments ncos !a /.
Arguments nsin !a /.
Arguments ntan !a /.
Arguments neqb !a !b /.
Arguments ngtb !a !b /.

Definition defined (a : num) : Prop := exists r : R, a = Fin r.

(** [a / b] on Python floats: [None] is the [ZeroDivisionError] of a zero
    divisor (whatever the dividend is); a [nan] divisor gives a [nan]. *)
Definition pdiv (a b : num) : option num :=
  match b with
  | Fin y => if Reqb y 0 then None else Some (ndiv a b)
  | Undef => Some Undef
  end.

(** Sequencing of computations that can raise. *)
Definition raising {A B : Type} (c : option A) (k : A -> option B) : option B :=
  match c with
  | Some a => k a
  | None => None
  end.

Notation "x <- c ;; k" := (raising c (fun x => k))
  (at level 61, c at next level, k at level 200, right associativity).

Notation "x + y" := (nadd x y) : num_scope.
Notation "x - y" := (nsub x y) : num_scope.
Notation "x * y" := (nmul x y) : num_scope.
Notation "x / y" := (ndiv x y) : num_scope.
Notation "- x" := (nneg x) : num_scope.

(** ** Complex numbers, as far as [t_nnn] uses them

    [kx = sqrt(kx2 + 0.j)] is a complex number; the program multiplies it by
    the real [L], takes its cosine and sine, divides by it, compares it with
    zero and keeps real parts. *)

Inductive cnum : Type :=
| CFin (re im : R)
| CUndef.

(** Principal square root of the complex number [a + 0j], [a] real. *)
Definition csqrt (a : num) : cnum :=
  match a with
  | Fin x => if Rleb 0 x then CFin (sqrt x) 0 else CFin 0 (sqrt (- x))
  | Undef => CUndef
  end.

Definition cmulr (z : cnum) (l : num) : cnum :=
  match z, l with
  | CFin a b, Fin x => CFin (a * x) (b * x)
  | _, _ => CUndef
  end.

Definition ccos (z : cnum) : cnum :=
  match z with
  | CFin a b => CFin (cos a * cosh b) (- (sin a * sinh b))
  | CUndef => CUndef
  end.

Definition csin (z : cnum) : cnum :=
  match z with
  | CFin a b => CFin (sin a * cosh b) (cos a * sinh b)
  | CUndef => CUndef
  end.

Definition cdiv (z w : cnum) : cnum :=
  match z, w with
  | CFin a b, CFin c d =>
      if Reqb c 0 && Reqb d 0 then CUndef
      else CFin ((a * c + b * d) / (c * c + d * d))
                ((b * c - a * d) / (c * c + d * d))
  | _, _ => CUndef
  end.

Definition creal (z : cnum) : num :=
  match z with CFin a _ => Fin a | CUndef => Undef end.

(** [z != 0] and [z == 0] for a complex [z]. *)
Definition cneq0 (z : cnum) : bool :=
  match z with
  | CFin a b => negb (Reqb a 0 && Reqb b 0)
  | CUndef => true
  end.
Definition ceq0 (z : cnum) : bool := negb (cneq0 z).

Arguments csqrt !a /.
Arguments cmulr !z !l /.
Arguments ccos !z /.
Arguments csin !z /.
Arguments cdiv !z !w /.
Arguments creal !z /.
Arguments cneq0 !z /.
Arguments ceq0 z /.

(** ** Arrays

    [zeros((6,6,6))] and [eye(6)] with the item assignments the program
    performs on them.  The program only uses literal indices below 6. *)

Definition tensor : Type := nat -> nat -> nat -> num.
Definition matrix : Type := nat -> nat -> num.

Definition zeros3 : tensor := fun _ _ _ => Fin 0.

Definition tset (T : tensor) (i j k : nat) (v : num) : tensor :=
  fun a b c =>
    if (a =? i)%nat && (b =? j)%nat && (c =? k)%nat then v else T a b c.

Definition eye6 : matrix :=
  fun i j => if (i =? j)%nat then Fin 1 else Fin 0.

Definition mset (M : matrix) (i j : nat) (v : num) : matrix :=
  fun a b => if (a =? i)%nat && (b =? j)%nat then v else M a b.

(** ** The closed-form map builder

    [t_nnn(L, h, k1, k2)], statement by statement.  [1/4.], [1/2.] and
    [1/6.] are float divisions. *)

Open Scope num_scope.

Definition t_nnn (L h k1 k2 : R) : tensor :=
  let h2 := h*h in
  let h3 := h2*h in
  let kx2 := k1 + h*h in
  let ky2 := - k1 in
  let kx4 := kx2*kx2 in
  let ky4 := ky2*ky2 in
  let kx := csqrt kx2 in
  let ky := csqrt ky2 in
  let cx := creal (ccos (cmulr kx L)) in
  let sx := if cneq0 kx then creal (cdiv (csin (cmulr kx L)) kx) else Fin L in
  let cy := creal (ccos (cmulr ky L)) in
  let sy := if cneq0 ky then creal (cdiv (csin (cmulr ky L)) ky) else Fin L in
  let sx2 := sx*sx in
  let sy2 := sy*sy in
  let L2 := L*L in
  let L3 := L2*L in
  let L4 := L3*L in
  let L5 := L4*L in
  let dx := if cneq0 kx then h/kx2*(1 - cx) else L*L*h/2 in
  let dx_h := if cneq0 kx then (1 - cx)/kx2 else L*L/2 in
  (* Integrals *)
  let denom := kx2 - 4*ky2 in
  let I111 := 1/3*(sx2 + dx_h) in
  let I122 := dx_h*dx_h/3 in
  let I112 := sx*dx_h/3 in
  let I11 := L*sx/2 in
  let I10 := dx_h in
  let I33 := L*sy/2 in
  let I34 := if cneq0 ky then (sy - L*cy)/(2*ky2) else L3/6 in
  let I211 := sx/3*(1 + 2*cx) in
  let I222 := 2*dx_h*sx/3 in
  let I212 := 1/3*(2*sx2 - dx_h) in
  let I21 := 1/2*(L*cx + sx) in
  let I22 := I11 in
  let I20 := sx in
  let I43 := 0.5*(L*cy + sy) in
  let I44 := I33 in
  let I512 := h*dx_h*dx_h/6 in
  let I51 := L*dx/2 in
  let '(I116, I12, I126, I16, I166, I216, I226, I26, I266) :=
    if cneq0 kx then
      let I116 := h/kx2*(I11 - I111) in
      let I12 := 0.5/kx2*(sx - L*cx) in
      let I126 := h/kx2*(I12 - I112) in
      let I16 := h/kx2*(dx_h - L*sx/2) in
      let I166 := h2/kx4*(I10 - 2*I11 + I111) in
      let I216 := h/kx2*(I21 - I211) in
      let I226 := h/kx2*(I22 - I212) in
      let I26 := h/(2*kx2)*(sx - L*cx) in
      let I266 := h2/kx4*(I20 - 2*I21 + I211) in
      (I116, I12, I126, I16, I166, I216, I226, I26, I266)
    else
      (h*L4/24, L3/6, h*L5/40, h*L4/24, h2*L5*L/120,
       h*L3/6, h*L4/8, h*L3/6, h2*L5/20) in
  let '(I511, I522, I516, I52, I526, I50, I566, I56) :=
    if cneq0 kx then
      let I511 := h*(3*L - 2*sx - sx*cx)/(6*kx2) in
      let I522 := h*(3*L - 4*sx + sx*cx)/(6*kx4) in
      let I516 := h/kx2*(I51 - I511) in
      let I52 := (2*dx - h*L*sx)/(2*kx2) in
      let I526 := h/kx2*(I52 - I512) in
      let I50 := h*(L - sx)/kx2 in
      let I566 := h2/kx4*(I50 - 2*I51 + I511) in
      let I56 := (h2*(L*(1 + cx) - 2*sx))/(2*kx4) in
      (I511, I522, I516, I52, I526, I50, I566, I56)
    else
      (h*L3/6, h*L5/60, h2*L5/120, h*L4/24, h2*L5*L/240,
       h*L3/6, h2*h*L5*L2/840, h2*L5/120) in
  let '(I144, I133, I134, I313, I324, I314, I323) :=
    if cneq0 kx && cneq0 ky then
      ((sy2 - 2*dx_h)/denom,
       dx_h - ky2*(sy2 - 2*dx_h)/denom,
       (sy*cy - sx)/denom,
       (kx2*cy*dx_h - 2*ky2*sx*sy)/denom,
       (2*cy*dx_h - sx*sy)/denom,
       (2*cy*sx - (1 + cx)*sy)/denom,
       (sy - cy*sx - 2*ky2*sy*dx_h)/denom)
    else if cneq0 kx && ceq0 ky then
      ((- 2 + kx2*L2 + 2*cx)/kx4,
       (1 - cx)/kx2,
       (L - sx)/kx2,
       (1 - cx)/kx2,
       2*(1 - cx)/kx4 - L*sx/kx2,
       (2*sx - L*(1 + cx))/kx2,
       (L - sx)/kx2)
    else
      (L4/12, L2/2, L3/6, L2/2, L4/12, L3/6, L3/6) in
  (* derivative of Integrals *)
  let '(I244, I233, I234, I413, I424, I414, I423) :=
    if cneq0 kx && cneq0 ky then
      (2*(cy*sy - sx)/denom,
       sx - 2*ky2*(cy*sy - sx)/denom,
       (kx2*dx_h - 2*ky2*sy2)/denom,
       ((kx2 - 2*ky2)*cy*sx - ky2*sy*(1 + cx))/denom,
       (cy*sx - cx*sy - 2*ky2*sy*dx_h)/denom,
       ((kx2 - 2*ky2)*sx*sy - (1 - cx)*cy)/denom,
       (cy*dx_h*(kx2 - 2*ky2) - ky2*sx*sy)/denom)
    else if cneq0 kx && ceq0 ky then
      ((2*L - 2*sx)/kx2,
       sx,
       (1 - cx)/kx2,
       sx,
       (sx - L*cx)/kx2,
       (cx - 1)/kx2 + L*sx,
       (1 - cx)/kx2)
    else
      (L3/3, Fin L, L2/2, Fin L, L3/3, L2/2, L2/2) in
  let '(I336, I346, I436, I446, I533, I534, I544) :=
    if ceq0 kx && cneq0 ky then
      let I336 := (h*L*(3*L*cy + (2*ky2*L2 - 3)*sy))/(24*ky2) in
      let I346 := (h*((3 - 2*ky2*L2)*L*cy + 3*(ky2*L2 - 1)*sy))/(24*ky4) in
      let I436 := I346 in
      let I446 := (h*L*(- 3*L*cy + (3 + 2*ky2*L2)*sy))/(24*ky2) in
      let I533 := (h*(3*L + 2*ky2*L3 - 3*sy*cy))/(24*ky2) in
      let I534 := (h*(L2 - sy2))/(8*ky2) in
      let I544 := (h*(- 3*L + 2*ky2*L3 + 3*sy*cy))/(24*ky4) in
      (I336, I346, I436, I446, I533, I534, I544)
    else if ceq0 kx && ceq0 ky then
      ((h*L4)/24, (h*L5)/40, (h*L3)/6, (h*L4)/8,
       h*L3/6, h*L4/24, h*L5/60)
    else
      (h/kx2*(I33 - I313),
       h/kx2*(I34 - I314),
       h/kx2*(I43 - I413),
       h/kx2*(I44 - I414),
       (h*(denom*L - 2*(denom + 2*ky2)*sx + kx2*cy*sy))/(2*denom*kx2),
       (h*sy2 - 2*dx)/(2*denom),
       (sy2 - 2*dx_h)/denom) in
  let K2 := k2/2 in
  let coef1 := 2*ky2*h - h3 - K2 in
  let coef3 := 2*h2 - ky2 in
  let t111 := coef1*I111 + h*kx4*I122/2 in
  let t112 := 2*coef1*I112 - h*kx2*I112 in
  let t116 := 2*coef1*I116 + coef3*I11 - h2*kx2*I122 in
  let t122 := coef1*I122 + 0.5*h*I111 in
  let t126 := 2*coef1*I126 + coef3*I12 + h2*I112 in
  let t166 := coef1*I166 + coef3*I16 + 0.5*h3*I122 - h*I10 in
  let t133 := K2*I133 - ky2*h*I10/2 in
  let t134 := 2*K2*I134 in
  let t144 := K2*I144 - h*I10/2 in
  let t211 := coef1*I211 + h*kx4*I222/2 in
  let t212 := 2*coef1*I212 - h*kx2*I212 in
  let t216 := 2*coef1*I216 + coef3*I21 - h2*kx2*I222 in
  let t222 := coef1*I222 + 0.5*h*I211 in
  let t226 := 2*coef1*I226 + coef3*I22 + h2*I212 in
  let t266 := coef1*I266 + coef3*I26 + 0.5*h3*I222 - h*I20 in
  let t233 := K2*I233 - ky2*h*I20/2 in
  let t234 := 2*K2*I234 in
  let t244 := K2*I244 - h*I20/2 in
  let coef2 := 2*(K2 - ky2*h) in
  let t313 := coef2*I313 + h*kx2*ky2*I324 in
  let t314 := coef2*I314 - h*kx2*I323 in
  let t323 := coef2*I323 - h*ky2*I314 in
  let t324 := coef2*I324 + h*I313 in
  let t336 := coef2*I336 + ky2*I33 - h2*ky2*I324 in
  let t346 := coef2*I346 + h2*I323 + ky2*I34 in
  let t413 := coef2*I413 + h*kx2*ky2*I424 in
  let t414 := coef2*I414 - h*kx2*I423 in
  let t423 := coef2*I423 - h*ky2*I414 in
  let t424 := coef2*I424 + h*I413 in
  let t436 := coef2*I436 - h2*ky2*I424 + ky2*I43 in
  let t446 := coef2*I446 + h2*I423 + ky2*I44 in
  (* Coordinates transformation from Curvilinear to a Cartesian *)
  let cx_1 := - kx2*sx in
  let sx_1 := cx in
  let cy_1 := - ky2*sy in
  let sy_1 := cy in
  let dx_1 := h*sx in
  let T := zeros3 in
  let T := tset T 0 0 0 t111 in
  let T := tset T 0 0 1 (t112 + h*sx) in
  let T := tset T 0 0 5 t116 in
  let T := tset T 0 1 1 t122 in
  let T := tset T 0 1 5 t126 in
  let T := tset T 0 5 5 t166 in
  let T := tset T 0 2 2 t133 in
  let T := tset T 0 2 3 t134 in
  let T := tset T 0 3 3 t144 in
  let T := tset T 1 0 0 (t211 - h*cx*cx_1) in
  let T := tset T 1 0 1 (t212 + h*sx_1 - h*(sx*cx_1 + cx*sx_1)) in
  let T := tset T 1 0 5 (t216 - h*(dx*cx_1 + cx*dx_1)) in
  let T := tset T 1 1 1 (t222 - h*sx*sx_1) in
  let T := tset T 1 1 5 (t226 - h*(sx*dx_1 + dx*sx_1)) in
  let T := tset T 1 5 5 (t266 - dx*h*dx_1) in
  let T := tset T 1 2 2 t233 in
  let T := tset T 1 2 3 t234 in
  let T := tset T 1 3 3 t244 in
  let T := tset T 2 0 2 t313 in
  let T := tset T 2 0 3 (t314 + h*sy) in
  let T := tset T 2 1 2 t323 in
  let T := tset T 2 1 3 t324 in
  let T := tset T 2 2 5 t336 in
  let T := tset T 2 3 5 t346 in
  let T := tset T 3 0 2 (t413 - h*cx*cy_1) in
  let T := tset T 3 0 3 (t414 + (1 - cx)*h*sy_1) in
  let T := tset T 3 1 2 (t423 - h*sx*cy_1) in
  let T := tset T 3 1 3 (t424 - h*sx*sy_1) in
  let T := tset T 3 2 5 (t436 - h*dx*cy_1) in
  let T := tset T 3 3 5 (t446 - h*dx*sy_1) in
  (* Path length difference *)
  let t511 := coef1*I511 + h*kx4*I522/2 in
  let t512 := 2*coef1*I512 - h*kx2*I512 in
  let t516 := 2*coef1*I516 + coef3*I51 - h2*kx2*I522 in
  let t522 := coef1*I522 + 0.5*h*I511 in
  let t526 := 2*coef1*I526 + coef3*I52 + h2*I512 in
  let t566 := coef1*I566 + coef3*I56 + 0.5*h3*I522 - h*I50 in
  let t533 := K2*I533 - ky2*h*I50/2 in
  let t534 := 2*K2*I534 in
  let t544 := K2*I544 - h*I50/2 in
  let i566 := if cneq0 kx then h2*(L - sx*cx)/(4*kx2) else h2*L3/6 in
  let T511 := t511 + 1/4*kx2*(L - cx*sx) in
  let T512 := t512 - (1/2)*kx2*sx2 + h*dx in
  let T516 := t516 + h*(sx*cx - L)/2 in
  let T522 := t522 + (L + sx*cx)/4 in
  let T526 := t526 + h*sx2/2 in
  let T566 := t566 + i566 in
  let T533 := t533 + 1/4*ky2*(L - sy*cy) in
  let T534 := t534 - 1/2*ky2*sy2 in
  let T544 := t544 + (L + sy*cy)/4 in
  let T := tset T 4 0 0 T511 in
  let T := tset T 4 0 1 (T512 + h*dx) in
  let T := tset T 4 0 5 T516 in
  let T := tset T 4 1 1 T522 in
  let T := tset T 4 1 5 T526 in
  let T := tset T 4 5 5 T566 in
  let T := tset T 4 2 2 T533 in
  let T := tset T 4 2 3 T534 in
  let T := tset T 4 3 3 T544 in
  T.

(** ** The fringe-field corrector

    [fringe_ent] and [fringe_ext] return the pair [(R, T)].  [-h/2.*t] is
    [((-h)/2.)*t] and [h*phi/cos(e - phi)**2] is [(h*phi)/(cos(e - phi)**2)]
    in Python. *)

Definition fringe_ent (h k1 e h_pole gap fint : R) : matrix * tensor :=
  let sec_e := 1/ncos e in
  let sec_e2 := sec_e*sec_e in
  let sec_e3 := sec_e2*sec_e in
  let tan_e := ntan e in
  let tan_e2 := tan_e*tan_e in
  let phi := fint*h*gap*sec_e*(1 + nsqr (nsin e)) in
  let R := eye6 in
  let R := mset R 1 0 (h*tan_e) in
  let R := mset R 3 2 (- h*ntan (e - phi)) in
  let T := zeros3 in
  let T := tset T 0 0 0 (- h/2*tan_e2) in
  let T := tset T 0 2 2 (h/2*sec_e2) in
  let T := tset T 1 0 0 (h/2*h_pole*sec_e3 + k1*tan_e) in
  let T := tset T 1 0 1 (h*tan_e2) in
  let T := tset T 1 0 5 (- h*tan_e) in
  let T := tset T 1 2 2 ((- k1 + h*h/2 + h*h*tan_e2)*tan_e - h/2*h_pole*sec_e3) in
  let T := tset T 1 2 3 (- h*tan_e2) in
  let T := tset T 2 0 2 (h*tan_e2) in
  let T := tset T 3 0 2 (- h*h_pole*sec_e3 - 2*k1*tan_e) in
  let T := tset T 3 0 3 (- h*tan_e2) in
  let T := tset T 3 1 2 (- h*sec_e2) in
  let T := tset T 3 2 5 (h*tan_e - h*phi/nsqr (ncos (e - phi))) in
  (R, T).

Definition fringe_ext (h k1 e h_pole gap fint : R) : matrix * tensor :=
  let sec_e := 1/ncos e in
  let sec_e2 := sec_e*sec_e in
  let sec_e3 := sec_e2*sec_e in
  let tan_e := ntan e in
  let tan_e2 := tan_e*tan_e in
  let phi := fint*h*gap*sec_e*(1 + nsqr (nsin e)) in
  let R := eye6 in
  let R := mset R 1 0 (h*tan_e) in
  let R := mset R 3 2 (- h*ntan (e - phi)) in
  let T := zeros3 in
  let T := tset T 0 0 0 (h/2*tan_e2) in
  let T := tset T 0 2 2 (- h/2*sec_e2) in
  let T := tset T 1 0 0 (h/2*h_pole*sec_e3 - (- k1 + h*h/2*tan_e2)*tan_e) in
  let T := tset T 1 0 1 (- h*tan_e2) in
  let T := tset T 1 0 5 (- h*tan_e) in
  let T := tset T 1 2 2 ((- k1 - h*h/2*tan_e2)*tan_e - h/2*h_pole*sec_e3) in
  let T := tset T 1 2 3 (h*tan_e2) in
  let T := tset T 2 0 2 (- h*tan_e2) in
  let T := tset T 3 0 2 (- h*h_pole*sec_e3 + (- k1 + h*h*sec_e2)*tan_e) in
  let T := tset T 3 0 3 (h*tan_e2) in
  let T := tset T 3 1 2 (h*sec_e2) in
  let T := tset T 3 2 5 (h*tan_e - h*phi/nsqr (ncos (e - phi))) in
  (R, T).

(** The effective angle correction [phi] of both variants, as a real number
    where [cos e <> 0]. *)
Definition fringe_phi (h e gap fint : R) : R :=
  (fint * h * gap * (1 / cos e) * (1 + sin e * sin e))%R.

(** [numpy.dot] of two 6x6 matrices, the transpose, and the matrix [S] of
    the symplectic condition: block-diagonal with the block
    [[0, 1], [-1, 0]] in each of the three planes. *)

Definition mmul (A B : matrix) : matrix :=
  fun i j => fold_right (fun k acc => A i k * B k j + acc) (Fin 0) (seq 0 6).

Definition transpose (A : matrix) : matrix := fun i j => A j i.

Definition S6 : matrix :=
  fun i j =>
    if (Nat.even i && (j =? i + 1))%nat then Fin 1
    else if (Nat.even j && (i =? j + 1))%nat then Fin (-1)
    else Fin 0.

(** ** The Hamiltonian evaluator and the symplectic stepper

    A phase-space vector [[x, px, y, py, sigma, ps]]. *)

Record vec6 : Type := V6 { v0 : num; v1 : num; v2 : num; v3 : num; v4 : num; v5 : num }.

Definition H23 (vec_x : vec6) (h k1 k2 beta g_inv : num) : vec6 :=
  let x := v0 vec_x in
  let px := v1 vec_x in
  let y := v2 vec_x in
  let py := v3 vec_x in
  let ps := v5 vec_x in
  let px2 := px*px in
  let py2 := py*py in
  let x2 := x*x in
  let y2 := y*y in
  let ps_beta := ps/beta in
  let k := 1 + h*x - ps_beta in
  let x1 := px*k in
  let px1 := - (h*h + k1)*x + h*ps_beta
             + (- h*(px2 + py2) - (2*h*k1 + k2)*x2 + (h*k1 + k2)*y2)/2 in
  let y1 := py*k in
  let py1 := k1*y + (h*k1 + k2)*x*y in
  let sigma1 := - (h*x)/beta - ((px2 + py2)/(2*beta)) - g_inv*g_inv/(beta*(1 + beta)) in
  V6 x1 px1 y1 py1 sigma1 0.

(** [verlet] on Python floats.  Its divisions by [beta], by
    [1 - step*h*px], by [2*beta] and by [beta*(1 + beta)] raise
    [ZeroDivisionError] when the divisor is zero; the divisions by the
    constant 2 do not.  [verlet_locals] holds the local variables [x1],
    [y1], [px_d], [py_d] and the bracket that the function multiplies by
    the step to advance [sigma]; [verlet] stores the new vector. *)
Record verlet_locals : Type :=
  VerletLocals { vl_x1 : num; vl_y1 : num; vl_sigma_d : num;
                 vl_px_d : num; vl_py_d : num }.

Definition verlet_body (vec_x : vec6) (step h k1 k2 beta g_inv : num)
  : option verlet_locals :=
  let x := v0 vec_x in
  let px := v1 vec_x in
  let y := v2 vec_x in
  let py := v3 vec_x in
  let ps := v5 vec_x in
  let px2_py2 := px*px + py*py in
  ps_beta <- pdiv ps beta ;;
  x1 <- pdiv (x + step*px*(1 - ps_beta)) (1 - step*h*px) ;;
  let y1 := y + step*py*(1 + h*x1 - ps_beta) in
  t1 <- pdiv (- h*x1) beta ;;
  t2 <- pdiv px2_py2 (2*beta) ;;
  t3 <- pdiv (g_inv*g_inv) (beta*(1 + beta)) ;;
  let sigma_d := t1 - t2 - t3 in
  let px_d := - (h*h + k1 + (h*k1 + k2/2)*x1)*x1 + h*ps_beta
              + (- h*px2_py2 + (h*k1 + k2)*y1*y1)/2 in
  let py_d := (k1 + (h*k1 + k2)*x1)*y1 in
  Some (VerletLocals x1 y1 sigma_d px_d py_d).

Definition verlet (vec_x : vec6) (step h k1 k2 beta g_inv : num) : option vec6 :=
  let px := v1 vec_x in
  let py := v3 vec_x in
  let sigma := v4 vec_x in
  let ps := v5 vec_x in
  l <- verlet_body vec_x step h k1 k2 beta g_inv ;;
  let vec_x4 := sigma + step*vl_sigma_d l in
  let vec_x1 := px + step*vl_px_d l in
  let vec_x3 := py + step*vl_py_d l in
  Some (V6 (vl_x1 l) vec_x1 (vl_y1 l) vec_x3 vec_x4 ps).

(** ** Ensembles

    An ensemble is a flat array with six numbers per particle.  [slice6 k X]
    is [X[k::6]] and [assign6 k v X] is the array after [X[k::6] = v].  The
    element-wise NumPy arithmetic on the slices is written per particle and
    mapped over the ensemble.  Arrays whose length is not a multiple of six
    are not ensembles; what NumPy's broadcasting does with them is not
    modelled, and the theorems below assume the length is a multiple of six
    wherever it matters. *)

Definition slice6 (k : nat) (X : list num) : list num :=
  map (fun i => nth (6 * i + k) X (Fin 0)) (seq 0 ((length X + 5 - k) / 6)).

Definition assign6 (k : nat) (v : list num) (X : list num) : list num :=
  map (fun i => if (i mod 6 =? k)%nat
                then nth (i / 6) v (nth i X (Fin 0))
                else nth i X (Fin 0))
      (seq 0 (length X)).

(** [int(r)] truncates towards zero.  [int] of a [nan] raises; the program
    only applies it to a quotient whose divisor was tested against zero. *)
Definition Rtrunc (r : R) : Z :=
  if Rleb 0 r then Int_part r else (- Int_part (- r))%Z.

Definition nint (a : num) : Z :=
  match a with Fin r => Rtrunc r | Undef => 0%Z end.

(** [numpy.linspace(start, stop, num=n)]: [n] evenly spaced samples,
    [arange(0, n) * step + start] with [step = (stop - start)/(n - 1)]. *)
Definition linspace (start stop : num) (n : nat) : list num :=
  match n with
  | O => []
  | S O => [start]
  | _ => map (fun i => INR i * ((stop - start) / INR (n - 1)) + start) (seq 0 n)
  end.

Section Globals.

(** Constants of [ocelot.common.globals], which is not part of the sources
    at hand: the electron rest energy in GeV and in eV and the speed of
    light.  They are parameters of the development. *)
Variables m_e_GeV m_e_eV speed_of_light : R.

(** *** The symplectic integrator *)

(** The step chosen by the first two conditionals of [sym_map]. *)
Definition sym_map_step0 (z h k1 k2 : R) : num :=
  let step := if nneqb h 0 || nneqb k1 0 || nneqb k2 0 then Fin 0.005 else Fin z in
  let step := if ngtb step z then Fin z else step in
  step.

(** [z_array = linspace(0., z, num=n)] with [n = int(z/step) + 1]. *)
Definition sym_map_z_array (z h k1 k2 : R) : list num :=
  let step := sym_map_step0 z h k1 k2 in
  let n := (nint (z/step) + 1)%Z in
  linspace 0 z (Z.to_nat n).

(** The step the loop works with, [z_array[1] - z_array[0]], and the number
    of times the loop body runs, [len(z_array) - 1]. *)
Definition sym_map_step (z h k1 k2 : R) : num :=
  let z_array := sym_map_z_array z h k1 k2 in
  nth 1 z_array Undef - nth 0 z_array Undef.

Definition sym_map_iterations (z h k1 k2 : R) : nat :=
  (length (sym_map_z_array z h k1 k2) - 1)%nat.

(** One particle inside the loop: [(x, px, y, py, sigma)] and its
    [ps_beta]. *)
Record particle : Type :=
  Particle { p_x : num; p_px : num; p_y : num; p_py : num; p_sigma : num;
             p_ps_beta : num }.

Definition sym_map_body (step h k1 beta c1 c2 c3 c4 : num) (p : particle) : particle :=
  let x := p_x p in
  let px := p_px p in
  let y := p_y p in
  let py := p_py p in
  let sigma := p_sigma p in
  let ps_beta := p_ps_beta p in
  let px2_py2 := px*px + py*py in
  let x := (x + step*px*(1 - ps_beta))/(1 - step*h*px) in
  let y := y + step*py*(1 + h*x - ps_beta) in
  let sigma := sigma + step*(- h*x/beta - px2_py2/(2*beta) - c4) in
  let px := px + step*(h*ps_beta + (- h*px2_py2 + c3*y*y)/2 - (c1 + c2*x)*x) in
  let py := py + step*(k1 + c3*x)*y in
  Particle x px y py sigma ps_beta.

Definition sym_map (z : R) (X : list num) (h k1 k2 energy : R) : list num :=
  let step := sym_map_step0 z h k1 k2 in
  if neqb step 0 then X else
  let gamma := energy/m_e_GeV in
  let g_inv := if nneqb gamma 0 then 1/gamma else Fin 0 in
  let beta := if nneqb gamma 0 then nsqrt (1 - g_inv*g_inv) else Fin 1 in
  let step := sym_map_step z h k1 k2 in
  let x := slice6 0 X in
  let px := slice6 1 X in
  let y := slice6 2 X in
  let py := slice6 3 X in
  let sigma := slice6 4 X in
  let ps := slice6 5 X in
  let c1 := h*h + k1 in
  let c2 := h*k1 + k2/2 in
  let c3 := h*k1 + k2 in
  let c4 := g_inv*g_inv/(beta*(1 + beta)) in
  let particles :=
    map (fun i => Particle (nth i x 0) (nth i px 0) (nth i y 0) (nth i py 0)
                           (nth i sigma 0) (nth i ps 0 / beta))
        (seq 0 (length x)) in
  let particles :=
    Nat.iter (sym_map_iterations z h k1 k2)
             (map (sym_map_body step h k1 beta c1 c2 c3 c4)) particles in
  let X := assign6 0 (map p_x particles) X in
  let X := assign6 1 (map p_px particles) X in
  let X := assign6 2 (map p_y particles) X in
  let X := assign6 3 (map p_py particles) X in
  let X := assign6 4 (map p_sigma particles) X in
  X.

(** *** The field-line Runge-Kutta tracker *)

Definition moments (bx by_ Bx By Bz dzk : num) : num * num :=
  let bx2 := bx*bx in
  let by2 := by_*by_ in
  let bxy := bx*by_ in
  let sq := nsqrt (1 + bx2 + by2) in
  let k := sq*dzk in
  let mx := k*(by_*Bz - By*(1 + bx2) + bxy*Bx) in
  let my := - k*(bx*Bz - Bx*(1 + by2) + bxy*By) in
  (mx, my).

(** The field-sampling capability, applied to one particle: the program
    calls it on whole rows and it is taken to act element by element. *)
Definition field : Type := num -> num -> num -> num * num * num.

(** Rows [9*i + 0 .. 9*i + 5] of [u] for one particle. *)
Record rkstate : Type :=
  RkState { rk_X : num; rk_bx : num; rk_Y : num; rk_by : num; rk_Z : num;
            rk_pz : num }.

(** One pass of the loop body of [rk_track_in_field] for one particle. *)
Definition rk_step (dz dzk dGamma2 : num) (mag_field : field) (s : rkstate) : rkstate :=
  let X := rk_X s in
  let Y := rk_Y s in
  let Z := rk_Z s in
  let bxconst := rk_bx s in
  let byconst := rk_by s in
  let bx := bxconst in
  let by_ := byconst in
  let kx1 := bx*dz in
  let ky1 := by_*dz in
  let '(Bx, By, Bz) := mag_field X Y Z in
  let '(mx1, my1) := moments bx by_ Bx By Bz dzk in
  (* K2 *)
  let bx := bxconst + mx1/2 in
  let by_ := byconst + my1/2 in
  let kx2 := bx*dz in
  let ky2 := by_*dz in
  let '(Bx, By, Bz) := mag_field (X + kx1/2) (Y + ky1/2) (Z + dz/2) in
  let '(mx2, my2) := moments bx by_ Bx By Bz dzk in
  (* K3 *)
  let bx := bxconst + mx2/2 in
  let by_ := byconst + my2/2 in
  let kx3 := bx*dz in
  let ky3 := by_*dz in
  let '(Bx, By, Bz) := mag_field (X + kx2/2) (Y + ky2/2) (Z + dz/2) in
  let '(mx3, my3) := moments bx by_ Bx By Bz dzk in
  (* K4 *)
  let Z_n := Z + dz in
  let bx := bxconst + mx3 in
  let by_ := byconst + my3 in
  let kx4 := bx*dz in
  let ky4 := by_*dz in
  let '(Bx, By, Bz) := mag_field (X + kx3) (Y + ky3) Z_n in
  let '(mx4, my4) := moments bx by_ Bx By Bz dzk in
  let X' := X + 1/6*(kx1 + 2*(kx2 + kx3) + kx4) in
  let bx' := bxconst + 1/6*(mx1 + 2*(mx2 + mx3) + mx4) in
  let Y' := Y + 1/6*(ky1 + 2*(ky2 + ky3) + ky4) in
  let by' := byconst + 1/6*(my1 + 2*(my2 + my3) + my4) in
  RkState X' bx' Y' by' Z_n (dGamma2 - (bx'*bx' + by'*by')/2).

(** The nine rows [9*i + 0 .. 9*i + 8] of one particle: its state and the
    field sampled at the position of that state. *)
Definition rk_block (mag_field : field) (s : rkstate) : list num :=
  let '(Bx, By, Bz) := mag_field (rk_X s) (rk_Y s) (rk_Z s) in
  [rk_X s; rk_bx s; rk_Y s; rk_by s; rk_Z s; rk_pz s; Bx; By; Bz].

(** The states of one particle at the [N] samples. *)
Fixpoint rk_states (n : nat) (f : rkstate -> rkstate) (s : rkstate) : list rkstate :=
  match n with
  | O => []
  | S n' => s :: rk_states n' f (f s)
  end.

(** [rk_track_in_field]: the array [u] as the list of its [9*N] rows, each
    row holding one number per particle.  [None] is a raised exception: the
    [IndexError] of [z[1]] when there are fewer than two samples, or the
    [ZeroDivisionError] of one of the three divisions of Python floats,
    [energy/m_e_GeV], [0.5/(gamma*gamma)] and
    [charge*cmm/(massElectron*mass*gamma)].  The arithmetic on the rows is
    NumPy's and raises nothing, and the function inspects no value it gets
    from the field. *)
Definition rk_track_in_field (y0 : list num) (l : R) (N : nat) (energy : R)
    (mag_field : field) : option (list (list num)) :=
  let z := linspace 0 l N in
  match nth_error z 1 with
  | None => None
  | Some z1 =>
    let h := z1 - nth 0 z Undef in
    let N := length z in
    gamma <- pdiv energy m_e_GeV ;;
    let charge := Fin 1 in
    let mass := Fin 1 in
    let cmm := Fin speed_of_light in
    let massElectron := Fin m_e_eV in
    let dz := h in
    q <- pdiv 0.5 (gamma*gamma) ;;
    let dGamma2 := 1 - q in
    k <- pdiv (charge*cmm) (massElectron*mass*gamma) ;;
    let dzk := dz*k in
    let columns :=
      map (fun p =>
             let px := nth p (slice6 1 y0) 0 in
             let py := nth p (slice6 3 y0) 0 in
             let pz := dGamma2 - (px*px + py*py)/2 in
             let s0 := RkState (nth p (slice6 0 y0) 0) (nth p (slice6 1 y0) 0)
                               (nth p (slice6 2 y0) 0) (nth p (slice6 3 y0) 0)
                               (nth 0 z Undef) pz in
             concat (map (rk_block mag_field)
                         (rk_states N (rk_step dz dzk dGamma2 mag_field) s0)))
          (seq 0 (length y0 / 6)) in
    Some (map (fun r => map (fun col => nth r col (Fin 0)) columns) (seq 0 (N * 9)))
  end.

Definition rk_field (y0 : list num) (l : R) (N : nat) (energy : R)
    (mag_field : field) : option (list num) :=
  match rk_track_in_field y0 l N energy mag_field with
  | None => None
  | Some traj_data =>
    let y0 := assign6 0 (nth ((N - 1) * 9 + 0) traj_data []) y0 in
    let y0 := assign6 1 (nth ((N - 1) * 9 + 1) traj_data []) y0 in
    let y0 := assign6 2 (nth ((N - 1) * 9 + 2) traj_data []) y0 in
    let y0 := assign6 3 (nth ((N - 1) * 9 + 3) traj_data []) y0 in
    Some y0
  end.

(** The state of particle [p] when the loop of [rk_track_in_field] starts. *)
Definition rk_initial (y0 : list num) (l : R) (N : nat) (energy : R) (p : nat) : rkstate :=
  let gamma := energy/m_e_GeV in
  let dGamma2 := 1 - 0.5/(gamma*gamma) in
  let px := nth (6 * p + 1) y0 0 in
  let py := nth (6 * p + 3) y0 0 in
  RkState (nth (6 * p) y0 0) px (nth (6 * p + 2) y0 0) py
          (nth 0 (linspace 0 l N) Undef)
          (dGamma2 - (px*px + py*py)/2).

End Globals.

(** ** The first-order stepper

    [verlet1O], the variant of [verlet] that keeps the linear terms only. *)

Definition verlet1O (vec_x : vec6) (step h k1 k2 beta g_inv : num) : vec6 :=
  let x := v0 vec_x in
  let px := v1 vec_x in
  let y := v2 vec_x in
  let py := v3 vec_x in
  let sigma := v4 vec_x in
  let ps := v5 vec_x in
  let ps_beta := ps/beta in
  let x1 := x + step*px in
  let y1 := y + step*py in
  let vec_x4 := sigma - step*h*x1/beta in
  let vec_x1 := px - step*((h*h + k1)*x1 - h*ps_beta) in
  let vec_x3 := py + step*k1*y1 in
  V6 x1 vec_x1 y1 vec_x3 vec_x4 ps.

(** The symplectic two-form on two displacements of phase space,
    [dx ^ dpx + dy ^ dpy + dsigma ^ dps]: the bilinear form of the matrix
    [S6]. *)
Definition omega (u v : vec6) : num :=
  v0 u * v1 v - v1 u * v0 v + (v2 u * v3 v - v3 u * v2 v)
  + (v4 u * v5 v - v5 u * v4 v).

Definition vsub (u v : vec6) : vec6 :=
  V6 (v0 u - v0 v) (v1 u - v1 v) (v2 u - v2 v) (v3 u - v3 v)
     (v4 u - v4 v) (v5 u - v5 v).

Section Globals2.

Variables m_e_GeV : R.

(** What [sym_map] does to the six coordinates of one particle. *)
Definition sym_map_particle (z h k1 k2 energy : R) (v : vec6) : vec6 :=
  let step := sym_map_step0 z h k1 k2 in
  if neqb step 0 then v else
  let gamma := energy/m_e_GeV in
  let g_inv := if nneqb gamma 0 then 1/gamma else Fin 0 in
  let beta := if nneqb gamma 0 then nsqrt (1 - g_inv*g_inv) else Fin 1 in
  let step := sym_map_step z h k1 k2 in
  let c1 := h*h + k1 in
  let c2 := h*k1 + k2/2 in
  let c3 := h*k1 + k2 in
  let c4 := g_inv*g_inv/(beta*(1 + beta)) in
  let p := Particle (v0 v) (v1 v) (v2 v) (v3 v) (v4 v) (v5 v / beta) in
  let p := Nat.iter (sym_map_iterations z h k1 k2)
                    (sym_map_body step h k1 beta c1 c2 c3 c4) p in
  V6 (p_x p) (p_px p) (p_y p) (p_py p) (p_sigma p) (v5 v).

End Globals2.

(** The six coordinates of particle [p] of an ensemble, and the flat array
    of a list of particles. *)
Definition particle_at (X : list num) (p : nat) : vec6 :=
  V6 (nth (6 * p) X 0) (nth (6 * p + 1) X 0) (nth (6 * p + 2) X 0)
     (nth (6 * p + 3) X 0) (nth (6 * p + 4) X 0) (nth (6 * p + 5) X 0).

Definition coordinate (v : vec6) (k : nat) : num :=
  match k with
  | 0 => v0 v | 1 => v1 v | 2 => v2 v | 3 => v3 v | 4 => v4 v | _ => v5 v
  end%nat.

(** ** The undulator tracker in C

    [track_und_weave] runs its Runge-Kutta loop as C code on one particle in
    the analytic field of a planar undulator.  The C functions [fields] and
    [moments] of its support code and the loop body follow; C [double]s are
    modelled as the numbers of the Python part are.  The C [moments] is the
    Python [moments] statement by statement. *)

Definition nsinh (a : num) : num :=
  match a with Fin x => Fin (sinh x) | Undef => Undef end.
Definition ncosh (a : num) : num :=
  match a with Fin x => Fin (cosh x) | Undef => Undef end.
Arguments nsinh !a /.
Arguments ncosh !a /.

Definition fields (kx ky kz B0 : num) : field := fun x y z =>
  let k1 := - B0*kx/ky in
  let k2 := - B0*kz/ky in
  let kx_x := kx*x in
  let ky_y := ky*y in
  let kz_z := kz*z in
  let cosx := ncos kx_x in
  let sinhy := nsinh ky_y in
  let cosz := ncos kz_z in
  let Bx := k1*nsin kx_x*sinhy*cosz in
  let By := B0*cosx*ncosh ky_y*cosz in
  let Bz := k2*cosx*sinhy*nsin kz_z in
  (Bx, By, Bz).

(** One pass of the C loop, from the entries [6 i .. 6 i + 5] of [u] to the
    entries [6 (i+1) .. 6 (i+1) + 5]. *)
Definition weave_step (dz dzk dGamma2 kx ky kz B0 : num) (s : rkstate) : rkstate :=
  let X := rk_X s in
  let Y := rk_Y s in
  let Z := rk_Z s in
  let bxconst := rk_bx s in
  let byconst := rk_by s in
  let bx := bxconst in
  let by_ := byconst in
  let kx1 := bx*dz in
  let ky1 := by_*dz in
  let '(Bx, By, Bz) := fields kx ky kz B0 X Y Z in
  let '(mx1, my1) := moments bx by_ Bx By Bz dzk in
  let bx := bxconst + mx1/2 in
  let by_ := byconst + my1/2 in
  let kx2 := bx*dz in
  let ky2 := by_*dz in
  let '(Bx, By, Bz) := fields kx ky kz B0 (X + kx1/2) (Y + ky1/2) (Z + dz/2) in
  let '(mx2, my2) := moments bx by_ Bx By Bz dzk in
  let bx := bxconst + mx2/2 in
  let by_ := byconst + my2/2 in
  let kx3 := bx*dz in
  let ky3 := by_*dz in
  let '(Bx, By, Bz) := fields kx ky kz B0 (X + kx2/2) (Y + ky2/2) (Z + dz/2) in
  let '(mx3, my3) := moments bx by_ Bx By Bz dzk in
  let bx := bxconst + mx3 in
  let by_ := byconst + my3 in
  let kx4 := bx*dz in
  let ky4 := by_*dz in
  let '(Bx, By, Bz) := fields kx ky kz B0 (X + kx3) (Y + ky3) (Z + dz) in
  let '(mx4, my4) := moments bx by_ Bx By Bz dzk in
  let U0 := X + 1/6*(kx1 + 2*kx2 + 2*kx3 + kx4) in
  let U1 := bxconst + 1/6*(mx1 + 2*mx2 + 2*mx3 + mx4) in
  let U2 := Y + 1/6*(ky1 + 2*ky2 + 2*ky3 + ky4) in
  let U3 := byconst + 1/6*(my1 + 2*my2 + 2*my3 + my4) in
  let U4 := Z + dz in
  let U5 := dGamma2 - (U1*U1 + U3*U3)/2 in
  RkState U0 U1 U2 U3 U4 U5.

Definition weave_block (s : rkstate) : list num :=
  [rk_X s; rk_bx s; rk_Y s; rk_by s; rk_Z s; rk_pz s].

Section GlobalsWeave.

Variables m_e_GeV m_e_eV speed_of_light : R.

(** [track_und_weave(y0, z, kz, kx, Kx, energy)].  [None] is a raised
    exception: the [IndexError] of [z[1]] or of [y0[5]], or the
    [ZeroDivisionError] of one of the two divisions of Python floats in the
    Python part, [energy/m_e_GeV] and [Kx*m0*kz/c].  The C code works on
    doubles and raises nothing. *)
Definition track_und_weave (y0 z : list num) (kz kx Kx energy : R)
  : option (list num * list num * list num * list num * list num * list num) :=
  match nth_error z 1, nth_error y0 5 with
  | Some z1, Some y05 =>
    gamma <- pdiv energy m_e_GeV ;;
    let c := Fin speed_of_light in
    let m0 := Fin m_e_eV in
    B0 <- pdiv (Kx*m0*kz) c ;;
    let ky := nsqrt (kz*kz - kx*kx) in
    let h := z1 - nth 0 z Undef in
    let N := length z in
    let q12 := gamma*(1 + y05) in
    (* the C code *)
    let charge := Fin 1 in
    let mass := Fin 1 in
    let cmm := Fin 299792458 in
    let massElectron := Fin 0.510998910e+6 in
    let px := nth 1 y0 Undef in
    let py := nth 3 y0 Undef in
    let dz := h in
    let gamma := q12 in
    let dGamma2 := 1 - 0.5/(gamma*gamma) in
    let pz := dGamma2 - (px*px + py*py)/2 in
    let k := charge*cmm/(massElectron*mass*gamma) in
    let s0 := RkState (nth 0 y0 Undef) (nth 1 y0 Undef) (nth 2 y0 Undef)
                      (nth 3 y0 Undef) 0 pz in
    let dzk := dz*k in
    let u := concat (map weave_block
                         (rk_states N (weave_step dz dzk dGamma2 kx ky kz B0) s0)) in
    let x := slice6 0 u in
    let y := slice6 2 u in
    let px := slice6 1 u in
    let py := slice6 3 u in
    let z := slice6 4 u in
    let pz := slice6 5 u in
    Some (x, px, y, py, z, pz)
  | _, _ => None
  end.

End GlobalsWeave.

Section Globals3.

Variables m_e_GeV m_e_eV speed_of_light : R.

(** The quantities [dz], [dGamma2] and [dzk] that [rk_track_in_field]
    computes before its loop, and the state of particle [p] after [i]
    passes of the loop. *)
Definition rk_dz (l : R) (N : nat) : num :=
  nth 1 (linspace 0 l N) Undef - nth 0 (linspace 0 l N) Undef.

Definition rk_dGamma2 (energy : R) : num :=
  let gamma := energy/m_e_GeV in
  1 - 0.5/(gamma*gamma).

Definition rk_dzk (l : R) (N : nat) (energy : R) : num :=
  let gamma := energy/m_e_GeV in
  let charge := Fin 1 in
  let mass := Fin 1 in
  let cmm := Fin speed_of_light in
  let massElectron := Fin m_e_eV in
  let k := charge*cmm/(massElectron*mass*gamma) in
  rk_dz l N * k.

Definition rk_state (y0 : list num) (l : R) (N : nat) (energy : R)
    (mag_field : field) (p i : nat) : rkstate :=
  Nat.iter i (rk_step (rk_dz l N) (rk_dzk l N energy) (rk_dGamma2 energy) mag_field)
           (rk_initial m_e_GeV y0 l N energy p).

End Globals3.

(** The twelve index triples that [fringe_ent] and [fringe_ext] assign. *)
Definition edge_entry (i j k : nat) : bool :=
  existsb (fun t => let '(a, b, c) := t in (i =? a) && (j =? b) && (k =? c))%nat
          [(0, 0, 0); (0, 2, 2); (1, 0, 0); (1, 0, 1); (1, 0, 5); (1, 2, 2);
           (1, 2, 3); (2, 0, 2); (3, 0, 2); (3, 0, 3); (3, 1, 2); (3, 2, 5)]%nat.

(** The index triples that respect the mid-plane symmetry, stored with
    [j <= k]: rows 0, 1 and 4 couple two horizontal-or-momentum indices
    (0, 1, 5) or two vertical ones (2, 3); rows 2 and 3 couple a horizontal
    index with a vertical one, or a vertical one with the momentum. *)
Definition midplane (i j k : nat) : bool :=
  let hor n := ((n =? 0) || (n =? 1))%nat in
  let ver n := ((n =? 2) || (n =? 3))%nat in
  let hord n := (hor n || (n =? 5))%nat in
  (((i =? 0) || (i =? 1) || (i =? 4))%nat
     && ((hord j && hord k) || (ver j && ver k)) && (j <=? k)%nat)
  || (((i =? 2) || (i =? 3))%nat
        && ((hor j && ver k) || (ver j && (k =? 5)%nat))).

(** The second-order map of a sextupole of length [L] and strength
    [K2 = k2/2] without bending or focusing: the double integrals of
    [x'' = -K2 (x^2 - y^2)], [y'' = 2 K2 x y] along the straight
    trajectories, their derivatives in the slopes' rows, and the
    path-length terms of a drift. *)
Definition sextupole_T (L K2 : R) (i j k : nat) : R :=
  match i, j, k with
  | 0, 0, 0 => (- K2 * L * L / 2)%R
  | 0, 0, 1 => (- K2 * L * L * L / 3)%R
  | 0, 1, 1 => (- K2 * L * L * L * L / 12)%R
  | 0, 2, 2 => (K2 * L * L / 2)%R
  | 0, 2, 3 => (K2 * L * L * L / 3)%R
  | 0, 3, 3 => (K2 * L * L * L * L / 12)%R
  | 1, 0, 0 => (- K2 * L)%R
  | 1, 0, 1 => (- K2 * L * L)%R
  | 1, 1, 1 => (- K2 * L * L * L / 3)%R
  | 1, 2, 2 => (K2 * L)%R
  | 1, 2, 3 => (K2 * L * L)%R
  | 1, 3, 3 => (K2 * L * L * L / 3)%R
  | 2, 0, 2 => (K2 * L * L)%R
  | 2, 0, 3 => (K2 * L * L * L / 3)%R
  | 2, 1, 2 => (K2 * L * L * L / 3)%R
  | 2, 1, 3 => (K2 * L * L * L * L / 6)%R
  | 3, 0, 2 => (2 * K2 * L)%R
  | 3, 0, 3 => (K2 * L * L)%R
  | 3, 1, 2 => (K2 * L * L)%R
  | 3, 1, 3 => (2 * K2 * L * L * L / 3)%R
  | 4, 1, 1 => (L / 2)%R
  | 4, 3, 3 => (L / 2)%R
  | _, _, _ => (0)%R
  end%nat.

(** The Hamiltonian that the documentation of [H23] gives, [H2 + H3], with
    [pt] read as [ps] and [1/gamma] as [g_inv]. *)
Definition H23_hamiltonian (h k1 k2 beta g_inv : R) (x px y py ps : R) : R :=
  ((px * px + py * py) / 2 + (h * h + k1) * (x * x) / 2 - (k1 * (y * y)) / 2
   - (h * ps * x) / beta
   + ((h * x - ps / beta) * (px * px + py * py) / 2
      + (2 * h * k1 + k2) * (x * x * x) / 6
      - (h * k1 + k2) * (x * (y * y)) / 2
      - ps * (g_inv * g_inv) / (beta * (1 + beta))))%R.

(** The entry [u[r, p]] of a two-dimensional array given as its rows. *)
Definition entry (u : list (list num)) (r p : nat) : num :=
  nth p (nth r u []) 0.

(** The field that vanishes everywhere. *)
Definition zero_field : field := fun _ _ _ => (Fin 0, Fin 0, Fin 0).

Close Scope num_scope.

(** ** Notions used in the statements *)

(** A tensor whose entries below the diagonal of its last two indices are
    all zero: only entries [T[i,j,k]] with [j <= k] were assigned. *)
Definition upper (T : tensor) : Prop :=
  forall i j k : nat, (k < j)%nat -> T i j k = Fin 0.

(** The identity with the two edge kicks [a] at [[1,0]] and [b] at [[3,2]]. *)
Definition edge_matrix (a b : num) : matrix :=
  mset (mset eye6 1 0 a) 3 2 b.

(** The nominal step of [sym_map]: 0.005 clamped to the segment length when
    a field is present, the whole segment for a drift. *)
Definition nominal_step (z h k1 k2 : R) : R :=
  if Reqb h 0 && Reqb k1 0 && Reqb k2 0 then z else Rmin 0.005 z.


(** A field-sampling function that yields no finite value anywhere. *)
Definition nan_field : field := fun _ _ _ => (Undef, Undef, Undef).

(** The entries of a tensor outside the index triples selected by [P] are
    zero. *)
Definition supported (P : nat -> nat -> nat -> bool) (T : tensor) : Prop :=
  forall i j k, P i j k = false -> T i j k = Fin 0.

(** The entries selected by [Q] are zero. *)
Definition zero_on (Q : nat -> nat -> nat -> bool) (T : tensor) : Prop :=
  forall i j k, Q i j k = true -> T i j k = Fin 0.

(** Rows other than the path-length row, columns other than the momentum
    deviation. *)
Definition geometric (i j k : nat) : bool :=
  negb (i =? 4)%nat && negb (k =? 5)%nat.

(** * Properties *)

(** ** Definedness

    An operation has a value only if its operands have one, and a quotient
    only if moreover the divisor is not zero: a division by zero anywhere
    in a computation leaves every number computed from it undefined. *)

Lemma Reqb_refl x : Reqb x x = true.
Proof. unfold Reqb. destruct (Req_dec_T x x); congruence. Qed.

Lemma Reqb_neq x y : x <> y -> Reqb x y = false.
Proof. unfold Reqb. destruct (Req_dec_T x y); congruence. Qed.

Lemma Reqb_true x y : Reqb x y = true -> x = y.
Proof. unfold Reqb. destruct (Req_dec_T x y); congruence. Qed.

Lemma Reqb_spec x y : reflect (x = y) (Reqb x y).
Proof. unfold Reqb. destruct (Req_dec_T x y); constructor; assumption. Qed.

Lemma ndiv_Fin a b : b <> 0 -> ndiv (Fin a) (Fin b) = Fin (a / b).
Proof. intros H. unfold ndiv. now rewrite Reqb_neq. Qed.

Lemma ntan_Fin a : cos a <> 0 -> ntan (Fin a) = Fin (tan a).
Proof. intros _. reflexivity. Qed.

Lemma nadd_defined a b : defined (nadd a b) -> defined a /\ defined b.
Proof.
  destruct a as [x|], b as [y|]; intros [v H]; try discriminate;
    split; eexists; reflexivity.
Qed.

Lemma nsub_defined a b : defined (nsub a b) -> defined a /\ defined b.
Proof.
  destruct a as [x|], b as [y|]; intros [v H]; try discriminate;
    split; eexists; reflexivity.
Qed.

Lemma nmul_defined a b : defined (nmul a b) -> defined a /\ defined b.
Proof.
  destruct a as [x|], b as [y|]; intros [v H]; try discriminate;
    split; eexists; reflexivity.
Qed.

Lemma nneg_defined a : defined (nneg a) -> defined a.
Proof. destruct a as [x|]; intros [v H]; try discriminate; eexists; reflexivity. Qed.

Lemma ndiv_defined a b :
  defined (ndiv a b) -> defined a /\ defined b /\ b <> Fin 0.
Proof.
  destruct a as [x|], b as [y|]; intros [v H]; try discriminate.
  cbn in H. destruct (Reqb y 0) eqn:E; [discriminate|].
  repeat split; try (eexists; reflexivity).
  intros Hy. injection Hy as ->. rewrite Reqb_refl in E. discriminate.
Qed.

Lemma nmul_Undef_r a : nmul a Undef = Undef.
Proof. now destruct a. Qed.

Lemma nadd_Undef_r a : nadd a Undef = Undef.
Proof. now destruct a. Qed.

Lemma nsub_Undef_r a : nsub a Undef = Undef.
Proof. now destruct a. Qed.

Lemma ndiv_Undef_r a : ndiv a Undef = Undef.
Proof. now destruct a. Qed.

(** ** Evaluating [t_nnn] *)

Lemma csqrt_0 : csqrt (Fin 0) = CFin 0 0.
Proof.
  unfold csqrt, Rleb. destruct (Rle_dec 0 0); [now rewrite sqrt_0 | lra].
Qed.

Lemma csqrt_sq h : 0 < h -> csqrt (Fin (0 + h * h)) = CFin h 0.
Proof.
  intros Hh. unfold csqrt, Rleb.
  destruct (Rle_dec 0 (0 + h * h)) as [_|n]; [|exfalso; nra].
  rewrite Rplus_0_l, sqrt_square by lra. reflexivity.
Qed.

Lemma half_dec : 0.5 = 1 / 2.
Proof. lra. Qed.

(** Pushes the arithmetic through [Fin], discharging the side conditions of
    the divisions with [tac]. *)
Ltac num_norm_by tac :=
  repeat (progress
    (cbn [nadd nsub nmul nneg nsqr ncos nsin creal ccos csin cmulr cdiv
          negb andb cneq0 ceq0];
     rewrite ?Reqb_refl, ?Reqb_neq, ?ndiv_Fin by tac)).

Ltac num_norm := num_norm_by ltac:(lra).

(** The first steps of [t_nnn] on a segment without fields: [kx] and [ky]
    are zero and every selection takes its last branch. *)
Ltac t_nnn_no_field :=
  unfold t_nnn;
  cbn [nadd nsub nmul nneg];
  replace (0 + 0 * 0) with 0 by ring; replace (- 0) with 0 by ring;
  rewrite csqrt_0;
  num_norm;
  rewrite ?Rmult_0_l, ?cos_0, ?cosh_0, ?half_dec;
  num_norm;
  unfold tset, zeros3.

(** In a pure sector bend, [T[0,0,0] = -(h/2) sin^2 (h L)]. *)
Lemma t_nnn_sector_000 L h :
  0 < h ->
  t_nnn L h 0 0 0%nat 0%nat 0%nat = Fin (- (h / 2) * (sin (h * L) * sin (h * L))).
Proof.
  intros Hh. unfold t_nnn.
  cbn [nadd nsub nmul nneg].
  replace (- 0) with 0 by ring.
  rewrite csqrt_0, csqrt_sq by assumption.
  cbn [cneq0 ceq0 negb andb]. rewrite Reqb_refl, !(Reqb_neq h 0) by lra.
  cbn [negb andb].
  unfold tset, zeros3. cbn [Nat.eqb andb].
  assert (H2 : 0 < h * h) by nra.
  num_norm_by ltac:(nra).
  f_equal. rewrite Rmult_0_l, cosh_0, sinh_0.
  pose proof (sin2_cos2 (h * L)) as E. unfold Rsqr in E.
  generalize dependent (sin (h * L)). generalize dependent (cos (h * L)).
  intros c s E.
  apply Rminus_diag_uniq.
  match goal with |- ?l - ?r = 0 =>
    replace (l - r) with (h * (s * s + c * c - 1) / 6) by (field; lra) end.
  rewrite E. field.
Qed.

(** ** The stored tensor is upper triangular in its last two indices *)


Lemma upper_zeros3 : upper zeros3.
Proof. intros i j k _. reflexivity. Qed.

Lemma upper_tset T a b c v :
  (b <= c)%nat -> upper T -> upper (tset T a b c v).
Proof.
  intros Hbc HT i j k Hkj. unfold tset.
  destruct (Nat.eqb_spec j b); destruct (Nat.eqb_spec k c);
    rewrite ?andb_false_r, ?andb_false_l; try (apply HT; assumption).
  exfalso. lia.
Qed.

Lemma t_nnn_upper L h k1 k2 : upper (t_nnn L h k1 k2).
Proof.
  unfold t_nnn, ceq0. cbv zeta.
  (repeat match goal with |- context [cneq0 ?z] => destruct (cneq0 z) end);
    cbv beta iota zeta delta [andb negb];
    repeat (apply upper_tset; [lia|]); apply upper_zeros3.
Qed.

Lemma fringe_ent_upper h k1 e h_pole gap fint :
  upper (snd (fringe_ent h k1 e h_pole gap fint)).
Proof.
  unfold fringe_ent. cbv zeta. cbn [snd].
  repeat (apply upper_tset; [lia|]); apply upper_zeros3.
Qed.

Lemma fringe_ext_upper h k1 e h_pole gap fint :
  upper (snd (fringe_ext h k1 e h_pole gap fint)).
Proof.
  unfold fringe_ext. cbv zeta. cbn [snd].
  repeat (apply upper_tset; [lia|]); apply upper_zeros3.
Qed.

(** C1.  Drift limit.  For every length [L] (in particular every [L > 0]),
    [t_nnn(L, 0, 0, 0)] is defined in every entry, so that no formula on
    this input divided by zero; the entries [T[4,1,1]] and [T[4,3,3]] of the
    path-length block equal [L/2], the second-order expansion of the path
    length of a drift, and every other entry is exactly zero. *)
Theorem t_nnn_drift_limit (L : R) (i j k : nat) :
  t_nnn L 0 0 0 i j k =
  Fin (if ((i =? 4) && (j =? 1) && (k =? 1) || (i =? 4) && (j =? 3) && (k =? 3))%nat
       then L / 2 else 0).
Proof.
  t_nnn_no_field.
  do 7 (try destruct i as [|i]); do 7 (try destruct j as [|j]);
    do 7 (try destruct k as [|k]);
    cbn [Nat.eqb andb orb]; f_equal; try reflexivity; field.
Qed.

(** C2.  Pure sector bend [L = 1.0], [h = 0.1], [k1 = k2 = 0]: the entry
    [T[0,0,0]] equals the closed form [-(h/2) sin^2 (h L)], that is
    [-0.05 sin^2 0.1]. *)
Theorem t_nnn_sector_bend_T000 :
  t_nnn 1 0.1 0 0 0%nat 0%nat 0%nat = Fin (- 0.05 * (sin 0.1 * sin 0.1)).
Proof.
  rewrite t_nnn_sector_000 by lra. f_equal.
  replace (0.1 * 1) with 0.1 by lra.
  replace (- (0.1 / 2)) with (- 0.05) by lra.
  reflexivity.
Qed.

(** ** The linear edge matrix *)


Lemma fringe_ent_R h k1 e h_pole gap fint i j :
  fst (fringe_ent h k1 e h_pole gap fint) i j =
  edge_matrix (nmul (Fin h) (ntan (Fin e)))
    (nmul (nneg (Fin h))
       (ntan (nsub (Fin e)
          (nmul (nmul (nmul (nmul (Fin fint) (Fin h)) (Fin gap))
                   (ndiv (Fin 1) (ncos (Fin e))))
             (nadd (Fin 1) (nsqr (nsin (Fin e)))))))) i j.
Proof. reflexivity. Qed.

Lemma fringe_ext_R h k1 e h_pole gap fint i j :
  fst (fringe_ext h k1 e h_pole gap fint) i j =
  fst (fringe_ent h k1 e h_pole gap fint) i j.
Proof. reflexivity. Qed.

Lemma fringe_ent_R_defined h k1 e h_pole gap fint i j :
  cos e <> 0 -> cos (e - fringe_phi h e gap fint) <> 0 ->
  fst (fringe_ent h k1 e h_pole gap fint) i j =
  edge_matrix (Fin (h * tan e)) (Fin (- h * tan (e - fringe_phi h e gap fint))) i j.
Proof.
  intros He Hphi. rewrite fringe_ent_R.
  rewrite (ntan_Fin e) by assumption.
  num_norm_by ltac:(assumption || lra).
  rewrite ntan_Fin by exact Hphi.
  reflexivity.
Qed.

Ltac below6 i :=
  destruct i as [|[|[|[|[|[|i]]]]]]; [| | | | | |exfalso; lia].

Lemma edge_matrix_symplectic (M : matrix) (a b : R) :
  (forall i j, M i j = edge_matrix (Fin a) (Fin b) i j) ->
  forall i j, (i < 6)%nat -> (j < 6)%nat ->
  mmul (mmul (transpose M) S6) M i j = S6 i j.
Proof.
  intros HM i j Hi Hj.
  unfold mmul, transpose. cbn [fold_right seq]. rewrite !HM.
  below6 i; below6 j; cbn; f_equal; ring.
Qed.


Lemma ntan_0 : ntan (Fin 0) = Fin 0.
Proof. rewrite ntan_Fin by (rewrite cos_0; lra). now rewrite tan_0. Qed.

Lemma fringe_ent_R_value h k1 e h_pole gap fint i j :
  cos e <> 0 ->
  fst (fringe_ent h k1 e h_pole gap fint) i j =
  edge_matrix (Fin (h * tan e)) (Fin (- h * tan (e - fringe_phi h e gap fint))) i j.
Proof.
  intros He. rewrite fringe_ent_R.
  num_norm_by ltac:(assumption || lra).
  reflexivity.
Qed.

(** C5.  For every parameter set with [cos e <> 0] the matrix [R] returned
    by [fringe_ent] and the one returned by [fringe_ext] satisfy
    [R^T S R = S] exactly: [R] is the identity with the two entries
    [R[1,0] = h tan e] and [R[3,2] = -h tan(e - phi)], [phi] the angle
    correction [fint h gap sec e (1 + sin^2 e)], and such a matrix is
    symplectic whatever the two entries are. *)
Theorem fringe_R_symplectic (h k1 e h_pole gap fint : R) (i j : nat) :
  cos e <> 0 ->
  (i < 6)%nat -> (j < 6)%nat ->
  mmul (mmul (transpose (fst (fringe_ent h k1 e h_pole gap fint))) S6)
       (fst (fringe_ent h k1 e h_pole gap fint)) i j = S6 i j /\
  mmul (mmul (transpose (fst (fringe_ext h k1 e h_pole gap fint))) S6)
       (fst (fringe_ext h k1 e h_pole gap fint)) i j = S6 i j.
Proof.
  intros He Hi Hj. split.
  - apply edge_matrix_symplectic
      with (a := h * tan e) (b := - h * tan (e - fringe_phi h e gap fint));
      [intros; apply fringe_ent_R_value|..]; assumption.
  - apply edge_matrix_symplectic
      with (a := h * tan e) (b := - h * tan (e - fringe_phi h e gap fint));
      [intros; rewrite fringe_ext_R; apply fringe_ent_R_value|..]; assumption.
Qed.

Lemma fringe_phi_0 h gap fint :
  fint * h * gap = 0 -> fringe_phi h 0 gap fint = 0.
Proof. intros H. unfold fringe_phi. rewrite H. ring. Qed.

Lemma cos_PI4_neq_0 : cos (PI / 4) <> 0.
Proof.
  pose proof PI_RGT_0.
  assert (0 < cos (PI / 4)) by (apply cos_gt_0; lra). lra.
Qed.

Lemma fringe_R_symplectic_witness :
  mmul (mmul (transpose (fst (fringe_ent 1 2 (PI / 4) 3 1 1))) S6)
       (fst (fringe_ent 1 2 (PI / 4) 3 1 1)) 1%nat 0%nat = S6 1%nat 0%nat /\
  mmul (mmul (transpose (fst (fringe_ext 1 2 (PI / 4) 3 1 1))) S6)
       (fst (fringe_ext 1 2 (PI / 4) 3 1 1)) 1%nat 0%nat = S6 1%nat 0%nat.
Proof.
  apply (fringe_R_symplectic 1 2 (PI / 4) 3 1 1 1 0).
  - exact cos_PI4_neq_0.
  - lia.
  - lia.
Defined.

(** C6 as stated fails: with [e = 0], [h = 1], [fint = 1] and
    [gap = pi/4] both variants have [R[3,2] = -h tan(e - phi) = 1], and the
    entry [[3,2]] of [R_ext R_ent] is 2, not the 0 of the identity. *)
Lemma fringe_compose_counterexample :
  mmul (fst (fringe_ext 1 0 0 0 (PI / 4) 1)) (fst (fringe_ent 1 0 0 0 (PI / 4) 1))
       3%nat 2%nat = Fin 2 /\
  mmul (fst (fringe_ext 1 0 0 0 (PI / 4) 1)) (fst (fringe_ent 1 0 0 0 (PI / 4) 1))
       3%nat 2%nat <> eye6 3%nat 2%nat.
Proof.
  cut (mmul (fst (fringe_ext 1 0 0 0 (PI / 4) 1)) (fst (fringe_ent 1 0 0 0 (PI / 4) 1))
         3%nat 2%nat = Fin 2).
  { intros E. split; [exact E|]. rewrite E. cbn. intros H. injection H as H. lra. }
  assert (E : fringe_phi 1 0 (PI / 4) 1 = PI / 4).
  { unfold fringe_phi. rewrite cos_0, sin_0. field. }
  assert (Hc : cos (0 - fringe_phi 1 0 (PI / 4) 1) <> 0).
  { rewrite E, Rminus_0_l, cos_neg. apply cos_PI4_neq_0. }
  unfold mmul. cbn [fold_right seq].
  rewrite !fringe_ext_R.
  rewrite !fringe_ent_R_defined by (rewrite ?cos_0; (lra || exact Hc)).
  rewrite E, Rminus_0_l, tan_neg, tan_PI4, tan_0.
  cbn. f_equal. ring.
Qed.

(** C6, as the program has it.  With pole angle [e = 0] and
    [fint h gap = 0], so that the angle correction [phi] vanishes (the
    default [gap = 0] and [fint = 0] among others), the product
    [R_ext R_ent] of the linear matrices of [fringe_ext] and [fringe_ent]
    called with the same parameters is the 6x6 identity. *)
Theorem fringe_compose_identity (h k1 h_pole gap fint : R) (i j : nat) :
  fint * h * gap = 0 -> (i < 6)%nat -> (j < 6)%nat ->
  mmul (fst (fringe_ext h k1 0 h_pole gap fint))
       (fst (fringe_ent h k1 0 h_pole gap fint)) i j = eye6 i j.
Proof.
  intros Hphi Hi Hj.
  assert (Hc : cos (0 - fringe_phi h 0 gap fint) <> 0).
  { rewrite fringe_phi_0 by assumption. rewrite Rminus_0_r, cos_0. lra. }
  unfold mmul. cbn [fold_right seq].
  rewrite !fringe_ext_R.
  rewrite !fringe_ent_R_defined by (rewrite ?cos_0; (lra || exact Hc)).
  rewrite fringe_phi_0 by assumption. rewrite Rminus_0_r, tan_0.
  below6 i; below6 j; cbn; f_equal; ring.
Qed.

Lemma fringe_compose_identity_witness :
  mmul (fst (fringe_ext 1 2 0 3 0 1)) (fst (fringe_ent 1 2 0 3 0 1)) 3%nat 2%nat
  = eye6 3%nat 2%nat.
Proof. apply (fringe_compose_identity 1 2 3 0 1 3 2); [lra | lia | lia]. Defined.

Lemma defined_tset (T : tensor) a b c v :
  defined v -> (forall i j k, defined (T i j k)) ->
  forall i j k, defined (tset T a b c v i j k).
Proof.
  intros Hv HT i j k. unfold tset.
  destruct ((i =? a)%nat && (j =? b)%nat && (k =? c)%nat); [assumption | apply HT].
Qed.

Lemma defined_zeros3 i j k : defined (zeros3 i j k).
Proof. exists 0. reflexivity. Qed.



Lemma defined_tset_off (T : tensor) a b c v i j k :
  (i, j, k) <> (a, b, c) -> defined (T i j k) -> defined (tset T a b c v i j k).
Proof.
  intros Hne HT. unfold tset.
  destruct (Nat.eqb_spec i a); destruct (Nat.eqb_spec j b); destruct (Nat.eqb_spec k c);
    cbn [andb]; try exact HT.
  subst. now contradiction Hne.
Qed.

Ltac fringe_T_defined_off H :=
  cbv zeta; cbn [snd];
  repeat (progress
    (cbn [nadd nsub nmul nneg nsqr ncos nsin];
     rewrite ?ndiv_Fin, ?ntan_Fin by (assumption || lra)));
  apply defined_tset_off; [exact H|];
  repeat (apply defined_tset; [eexists; reflexivity|]);
  apply defined_zeros3.

Lemma cos_edge_witness : cos (PI / 4 - fringe_phi 1 (PI / 4) (1 / 10) 1) <> 0.
Proof.
  assert (Hs : 0 < sqrt 2) by (apply sqrt_lt_R0; lra).
  assert (Hss : sqrt 2 * sqrt 2 = 2) by (apply sqrt_sqrt; lra).
  assert (E : fringe_phi 1 (PI / 4) (1 / 10) 1 = 3 * sqrt 2 / 20).
  { unfold fringe_phi. rewrite cos_PI4, sin_PI4.
    replace (1 / sqrt 2 * (1 / sqrt 2)) with (1 / (sqrt 2 * sqrt 2)) by (field; lra).
    rewrite Hss. field. lra. }
  rewrite E. pose proof PI2_1.
  assert (H2 : sqrt 2 < 2) by nra.
  assert (0 < cos (PI / 4 - 3 * sqrt 2 / 20)) by (apply cos_gt_0; lra).
  lra.
Qed.



(** C4 as stated fails: for a sextupole of unit length
    ([L = 1], [h = k1 = 0], [k2 = 2]) the array has [T[0,2,3] = 1/3] and
    [T[0,3,2] = 0]; the arrays of [fringe_ent] and [fringe_ext] for
    [h = 1], [e = 0] differ at [[3,1,2]] and [[3,2,1]]. *)
Lemma tensor_not_symmetric :
  t_nnn 1 0 0 2 0%nat 2%nat 3%nat = Fin (1 / 3) /\
  t_nnn 1 0 0 2 0%nat 3%nat 2%nat = Fin 0 /\
  t_nnn 1 0 0 2 0%nat 2%nat 3%nat <> t_nnn 1 0 0 2 0%nat 3%nat 2%nat /\
  snd (fringe_ent 1 0 0 0 0 0) 3%nat 1%nat 2%nat
    <> snd (fringe_ent 1 0 0 0 0 0) 3%nat 2%nat 1%nat /\
  snd (fringe_ext 1 0 0 0 0 0) 3%nat 1%nat 2%nat
    <> snd (fringe_ext 1 0 0 0 0 0) 3%nat 2%nat 1%nat.
Proof.
  assert (E1 : t_nnn 1 0 0 2 0%nat 2%nat 3%nat = Fin (1 / 3)).
  { t_nnn_no_field. cbn [Nat.eqb andb]. f_equal. field. }
  assert (E2 : t_nnn 1 0 0 2 0%nat 3%nat 2%nat = Fin 0).
  { apply t_nnn_upper. lia. }
  split; [exact E1|]. split; [exact E2|]. split; [|split].
  - rewrite E1, E2. intros H. injection H as H. lra.
  - rewrite (fringe_ent_upper 1 0 0 0 0 0 3%nat 2%nat 1%nat) by lia.
    unfold fringe_ent. cbv zeta. cbn [snd]. unfold tset. cbn [Nat.eqb andb].
    cbn [ncos nmul nneg]. rewrite cos_0. num_norm.
    intros H. injection H as H. lra.
  - rewrite (fringe_ext_upper 1 0 0 0 0 0 3%nat 2%nat 1%nat) by lia.
    unfold fringe_ext. cbv zeta. cbn [snd]. unfold tset. cbn [Nat.eqb andb].
    cbn [ncos nmul nneg]. rewrite cos_0. num_norm.
    intros H. injection H as H. lra.
Qed.

(** C4, as the program has it.  For every input the array [T] returned by
    [t_nnn], by [fringe_ent] and by [fringe_ext] holds only the entries
    with [j <= k]: [T[i,j,k] = 0] whenever [k < j].  The symmetric value
    [T[i,k,j]] is not stored. *)
Theorem tensor_upper_triangular (L h k1 k2 e h_pole gap fint : R) (i j k : nat) :
  (k < j)%nat ->
  t_nnn L h k1 k2 i j k = Fin 0 /\
  snd (fringe_ent h k1 e h_pole gap fint) i j k = Fin 0 /\
  snd (fringe_ext h k1 e h_pole gap fint) i j k = Fin 0.
Proof.
  intros Hkj. repeat split.
  - now apply t_nnn_upper.
  - now apply fringe_ent_upper.
  - now apply fringe_ext_upper.
Qed.

Lemma tensor_upper_triangular_witness :
  t_nnn 1 0 0 2 0%nat 3%nat 2%nat = Fin 0 /\
  snd (fringe_ent 1 0 0 0 0 0) 0%nat 3%nat 2%nat = Fin 0 /\
  snd (fringe_ext 1 0 0 0 0 0) 0%nat 3%nat 2%nat = Fin 0.
Proof. apply (tensor_upper_triangular 1 0 0 2 0 0 0 0 0 3 2). lia. Defined.

(** ** The symplectic stepper and the Hamiltonian *)



Ltac num_cases :=
  repeat (cbn [nadd nsub nmul nneg ndiv v0 v1 v2 v3 v4 v5];
          match goal with
          | |- context [Reqb ?a ?b] => destruct (Reqb_spec a b)
          end);
  cbn [nadd nsub nmul nneg ndiv v0 v1 v2 v3 v4 v5].

Ltac nonzero :=
  assumption ||
  (let Hz := fresh in
   intros Hz;
   match goal with H : ?p <> 0 |- _ => apply H; nra end).

Ltac num_close :=
  try reflexivity;
  try (f_equal; field; repeat split; nonzero);
  try (exfalso; lra).

Lemma pdiv_defined a b : b <> Fin 0 -> pdiv a b = Some (ndiv a b).
Proof.
  intros H. unfold pdiv. destruct b as [y|]; [|destruct a; reflexivity].
  destruct (Reqb_spec y 0) as [->|Hy]; [now contradiction H | reflexivity].
Qed.

Lemma pdiv_Fin a b : b <> 0 -> pdiv (Fin a) (Fin b) = Some (Fin (a / b)).
Proof. intros H. unfold pdiv. rewrite ndiv_Fin, Reqb_neq by exact H. reflexivity. Qed.

Lemma pdiv_zero a : pdiv a (Fin 0) = None.
Proof. unfold pdiv. now rewrite Reqb_refl. Qed.

Ltac raise_norm tac :=
  repeat (progress (cbn [nadd nsub nmul nneg raising];
                    rewrite ?pdiv_Fin, ?ndiv_Fin by tac)).

(** Where [verlet] returns and what its local variables are. *)
Lemma verlet_body_value (x px y py sigma ps step h k1 k2 beta g_inv : R) :
  beta <> 0 -> 1 + beta <> 0 -> 1 - step * h * px <> 0 ->
  let ps_beta := ps / beta in
  let x1 := (x + step * px * (1 - ps_beta)) / (1 - step * h * px) in
  let y1 := y + step * py * (1 + h * x1 - ps_beta) in
  verlet_body (V6 x px y py sigma ps) step h k1 k2 beta g_inv =
  Some (VerletLocals (Fin x1) (Fin y1)
          (Fin (- h * x1 / beta - (px * px + py * py) / (2 * beta)
                - g_inv * g_inv / (beta * (1 + beta))))
          (Fin (- (h * h + k1 + (h * k1 + k2 / 2) * x1) * x1 + h * ps_beta
                + (- h * (px * px + py * py) + (h * k1 + k2) * y1 * y1) / 2))
          (Fin ((k1 + (h * k1 + k2) * x1) * y1))).
Proof.
  intros Hb Hb1 Hd.
  assert (Hbb : beta * (1 + beta) <> 0).
  { intros H0. apply Rmult_integral in H0. tauto. }
  assert (H2b : 2 * beta <> 0) by lra.
  cbv zeta. unfold verlet_body. cbv zeta. cbn [v0 v1 v2 v3 v4 v5].
  raise_norm ltac:(assumption || lra).
  reflexivity.
Qed.

(** Where [verlet] raises: when one of its divisors is zero. *)
Lemma verlet_raises (x px y py sigma ps step h k1 k2 beta g_inv : R) :
  beta = 0 \/ 1 + beta = 0 \/ 1 - step * h * px = 0 ->
  verlet (V6 x px y py sigma ps) step h k1 k2 beta g_inv = None.
Proof.
  intros H. unfold verlet, verlet_body. cbv zeta. cbn [v0 v1 v2 v3 v4 v5].
  destruct (Req_dec_T beta 0) as [->|Hb].
  { rewrite pdiv_zero. reflexivity. }
  rewrite pdiv_Fin by exact Hb. cbn [raising nadd nsub nmul nneg].
  destruct (Req_dec_T (1 - step * h * px) 0) as [->|Hd].
  { rewrite pdiv_zero. reflexivity. }
  assert (Hb1 : 1 + beta = 0) by tauto.
  assert (H2b : 2 * beta <> 0) by lra.
  raise_norm ltac:(assumption || lra).
  replace (beta * (1 + beta)) with 0 by (rewrite Hb1; ring).
  rewrite pdiv_zero. reflexivity.
Qed.

(** C3.  [verlet] returns when none of its divisors [beta], [1 + beta],
    [1 - step h px] is zero, and raises otherwise.  Where it returns, all
    values are real numbers and, with [dx, dpx, dy, dpy, dsigma] the
    components of [H23] at the state whose positions are the updated [x1]
    and [y1] and whose momenta are the current ones: [x1] solves
    [x1 = x + step dx], an equation linear in [x1] because
    [dx = px (1 + h x1 - ps/beta)]; [y1 = y + step dy]; the local
    variables [px_d] and [py_d] are [dpx] and [dpy]; the bracket that
    advances [sigma] is [dsigma]; and the vector returned is
    [x1, px + step dpx, y1, py + step dpy, sigma + step dsigma, ps]. *)
Theorem verlet_specialises_H23
    (x px y py sigma ps step h k1 k2 beta g_inv : R) :
  beta <> 0 -> 1 + beta <> 0 -> 1 - step * h * px <> 0 ->
  exists x1 y1 dx dpx dy dpy dsigma : R,
    verlet_body (V6 x px y py sigma ps) step h k1 k2 beta g_inv =
      Some (VerletLocals (Fin x1) (Fin y1) (Fin dsigma) (Fin dpx) (Fin dpy)) /\
    verlet (V6 x px y py sigma ps) step h k1 k2 beta g_inv =
      Some (V6 (Fin x1) (Fin (px + step * dpx)) (Fin y1) (Fin (py + step * dpy))
               (Fin (sigma + step * dsigma)) (Fin ps)) /\
    H23 (V6 (Fin x1) px (Fin y1) py sigma ps) h k1 k2 beta g_inv =
      V6 (Fin dx) (Fin dpx) (Fin dy) (Fin dpy) (Fin dsigma) (Fin 0) /\
    x1 = x + step * dx /\
    dx = px * (1 + h * x1 - ps / beta) /\
    y1 = y + step * dy.
Proof.
  intros Hb Hb1 Hd.
  assert (Hbb : beta * (1 + beta) <> 0).
  { intros H0. apply Rmult_integral in H0. tauto. }
  assert (H2b : 2 * beta <> 0) by lra.
  pose proof (verlet_body_value x px y py sigma ps step h k1 k2 beta g_inv Hb Hb1 Hd) as HB.
  cbv zeta in HB.
  set (x1 := (x + step * px * (1 - ps / beta)) / (1 - step * h * px)) in *.
  set (y1 := y + step * py * (1 + h * x1 - ps / beta)) in *.
  exists x1, y1, (px * (1 + h * x1 - ps / beta)).
  eexists. exists (py * (1 + h * x1 - ps / beta)). do 2 eexists.
  split; [exact HB|].
  split; [unfold verlet; rewrite HB; reflexivity|].
  split.
  { unfold H23. cbv zeta. cbn [v0 v1 v2 v3 v4 v5].
    raise_norm ltac:(assumption || lra).
    f_equal; f_equal; unfold y1; try reflexivity; field; repeat split; assumption. }
  split; [|split; [reflexivity | unfold y1; ring]].
  unfold x1. field. split; assumption.
Qed.

Lemma verlet_specialises_H23_witness :
  exists x1 y1 dx dpx dy dpy dsigma : R,
    verlet_body (V6 1 2 3 4 5 6) (Fin (1 / 10)) 1 1 1 1 (Fin (1 / 2)) =
      Some (VerletLocals (Fin x1) (Fin y1) (Fin dsigma) (Fin dpx) (Fin dpy)) /\
    verlet (V6 1 2 3 4 5 6) (Fin (1 / 10)) 1 1 1 1 (Fin (1 / 2)) =
      Some (V6 (Fin x1) (Fin (2 + 1 / 10 * dpx)) (Fin y1) (Fin (4 + 1 / 10 * dpy))
               (Fin (5 + 1 / 10 * dsigma)) (Fin 6)) /\
    H23 (V6 (Fin x1) 2 (Fin y1) 4 5 6) 1 1 1 1 (Fin (1 / 2)) =
      V6 (Fin dx) (Fin dpx) (Fin dy) (Fin dpy) (Fin dsigma) (Fin 0) /\
    x1 = 1 + 1 / 10 * dx /\
    dx = 2 * (1 + 1 * x1 - 6 / 1) /\
    y1 = 3 + 1 / 10 * dy.
Proof.
  apply (verlet_specialises_H23 1 2 3 4 5 6 (1 / 10) 1 1 1 1 (1 / 2)); lra.
Defined.

(** ** The step of [sym_map] *)



Lemma Rltb_spec x y : reflect (x < y) (Rltb x y).
Proof. unfold Rltb. destruct (Rlt_dec x y); constructor; assumption. Qed.

Lemma Rleb_spec x y : reflect (x <= y) (Rleb x y).
Proof. unfold Rleb. destruct (Rle_dec x y); constructor; assumption. Qed.

Lemma nth_map_seq {A} (f : nat -> A) (n i : nat) (d : A) :
  (i < n)%nat -> nth i (map f (seq 0 n)) d = f i.
Proof.
  intros Hi.
  rewrite (nth_indep _ d (f 0%nat)) by (rewrite length_map, length_seq; exact Hi).
  rewrite (map_nth f (seq 0 n) 0%nat i), seq_nth by exact Hi. reflexivity.
Qed.


Lemma sym_map_step0_nominal z h k1 k2 :
  0 < z -> sym_map_step0 z h k1 k2 = Fin (nominal_step z h k1 k2).
Proof.
  intros Hz. unfold sym_map_step0, nominal_step, nneqb. cbn [neqb].
  destruct (Reqb h 0), (Reqb k1 0), (Reqb k2 0); cbn [negb orb andb ngtb];
    unfold Rmin;
    match goal with |- context [Rltb ?a ?b] => destruct (Rltb_spec a b) end;
    try destruct (Rle_dec 0.005 z);
    try reflexivity; try (exfalso; lra); f_equal; lra.
Qed.

Lemma nominal_step_bounds z h k1 k2 :
  0 < z -> 0 < nominal_step z h k1 k2 <= z.
Proof.
  intros Hz. unfold nominal_step, Rmin.
  destruct (Reqb h 0 && Reqb k1 0 && Reqb k2 0); [lra|].
  destruct (Rle_dec 0.005 z); lra.
Qed.

Lemma Int_part_ge_1 r : 1 <= r -> (1 <= Int_part r)%Z.
Proof.
  intros Hr. destruct (base_Int_part r) as [_ H].
  assert (0 < IZR (Int_part r)) by lra.
  apply lt_IZR in H0. lia.
Qed.

Lemma sym_map_z_array_shape z h k1 k2 :
  0 < z ->
  let m := Z.to_nat (Int_part (z / nominal_step z h k1 k2)) in
  (1 <= m)%nat /\
  sym_map_z_array z h k1 k2 =
    map (fun i => nadd (nmul (Fin (INR i)) (ndiv (nsub (Fin z) (Fin 0)) (Fin (INR m)))) (Fin 0))
        (seq 0 (S m)).
Proof.
  intros Hz m.
  pose proof (nominal_step_bounds z h k1 k2 Hz) as [Hs0 Hs1].
  assert (Hq : 1 <= z / nominal_step z h k1 k2).
  { apply Rmult_le_reg_r with (nominal_step z h k1 k2); [assumption|].
    unfold Rdiv. rewrite Rmult_assoc, Rinv_l by lra. lra. }
  pose proof (Int_part_ge_1 _ Hq) as HI.
  assert (Hm : (1 <= m)%nat) by (unfold m; lia).
  split; [exact Hm|].
  unfold sym_map_z_array. rewrite sym_map_step0_nominal by assumption.
  rewrite ndiv_Fin by lra. cbn [nint]. unfold Rtrunc.
  destruct (Rleb_spec 0 (z / nominal_step z h k1 k2)); [|exfalso; lra].
  replace (Z.to_nat (Int_part (z / nominal_step z h k1 k2) + 1)) with (S m)
    by (unfold m; lia).
  unfold linspace. destruct m as [|m']; [lia|].
  replace (S (S m') - 1)%nat with (S m') by lia. reflexivity.
Qed.

Lemma sym_map_iterations_eq z h k1 k2 :
  0 < z ->
  sym_map_iterations z h k1 k2 = Z.to_nat (Int_part (z / nominal_step z h k1 k2)).
Proof.
  intros Hz. unfold sym_map_iterations.
  destruct (sym_map_z_array_shape z h k1 k2 Hz) as [_ ->].
  rewrite length_map, length_seq. lia.
Qed.

Lemma sym_map_step_eq z h k1 k2 :
  0 < z ->
  sym_map_step z h k1 k2 = Fin (z / INR (sym_map_iterations z h k1 k2)).
Proof.
  intros Hz. rewrite sym_map_iterations_eq by assumption.
  unfold sym_map_step.
  destruct (sym_map_z_array_shape z h k1 k2 Hz) as [Hm ->].
  set (m := Z.to_nat (Int_part (z / nominal_step z h k1 k2))) in *.
  rewrite !nth_map_seq by lia.
  assert (HM : 1 <= INR m) by (change 1 with (INR 1); apply le_INR; exact Hm).
  cbn [nsub]. rewrite ndiv_Fin by lra. cbn [nadd nmul nsub INR].
  f_equal. field. lra.
Qed.

Lemma INR_iterations z h k1 k2 :
  0 < z ->
  let q := z / nominal_step z h k1 k2 in
  let M := INR (sym_map_iterations z h k1 k2) in
  1 <= M /\ M <= q /\ q < M + 1.
Proof.
  intros Hz q M. unfold M. rewrite sym_map_iterations_eq by assumption. fold q.
  destruct (sym_map_z_array_shape z h k1 k2 Hz) as [Hm _]. fold q in Hm.
  assert (HI : (0 <= Int_part q)%Z) by lia.
  rewrite INR_IZR_INZ, Z2Nat.id by exact HI.
  destruct (base_Int_part q) as [H1 H2].
  assert (1 <= Int_part q)%Z by lia.
  apply IZR_le in H. lra.
Qed.

(** C8, as the program has it.  For a segment of length [z > 0],
    [sym_map] chooses the nominal step 0.005, clamped to [z], when one of
    [h], [k1], [k2] is not zero, and [z] for a drift.  The loop then runs
    [int(z / nominal)] times, at least once, with the step
    [z / iterations] taken from [linspace]: this step is at least the
    nominal one, below twice the nominal one and never above [z].  For a
    drift the loop runs exactly once with the step [z]. *)
Theorem sym_map_step_policy (z h k1 k2 : R) :
  0 < z ->
  let nominal := nominal_step z h k1 k2 in
  let iterations := sym_map_iterations z h k1 k2 in
  sym_map_step0 z h k1 k2 = Fin nominal /\
  0 < nominal <= z /\
  iterations = Z.to_nat (Int_part (z / nominal)) /\
  (1 <= iterations)%nat /\
  sym_map_step z h k1 k2 = Fin (z / INR iterations) /\
  nominal <= z / INR iterations <= z /\
  z / INR iterations < 2 * nominal /\
  (h = 0 -> k1 = 0 -> k2 = 0 ->
   nominal = z /\ iterations = 1%nat /\ sym_map_step z h k1 k2 = Fin z).
Proof.
  intros Hz nominal iterations.
  pose proof (nominal_step_bounds z h k1 k2 Hz) as Hb. fold nominal in Hb.
  pose proof (INR_iterations z h k1 k2 Hz) as HM. cbv zeta in HM.
  fold nominal iterations in HM.
  pose proof (sym_map_step_eq z h k1 k2 Hz) as Hstep. fold iterations in Hstep.
  pose proof (sym_map_iterations_eq z h k1 k2 Hz) as Hit. fold nominal iterations in Hit.
  set (M := INR iterations) in *.
  assert (Hz' : z = z / nominal * nominal) by (field; lra).
  set (q := z / nominal) in *.
  assert (HqM : z / M = q * nominal / M) by (rewrite Hz' at 1; reflexivity).
  split; [apply sym_map_step0_nominal; assumption|].
  split; [exact Hb|]. split; [exact Hit|].
  split.
  { destruct (sym_map_z_array_shape z h k1 k2 Hz) as [Hm _].
    fold nominal in Hm. rewrite Hit. exact Hm. }
  split; [exact Hstep|].
  assert (HMpos : 0 < M) by lra.
  split; [split|split].
  - apply Rmult_le_reg_r with M; [exact HMpos|].
    unfold Rdiv. rewrite Rmult_assoc, Rinv_l by lra. nra.
  - apply Rmult_le_reg_r with M; [exact HMpos|].
    unfold Rdiv. rewrite Rmult_assoc, Rinv_l by lra. nra.
  - apply Rmult_lt_reg_r with M; [exact HMpos|].
    unfold Rdiv. rewrite Rmult_assoc, Rinv_l by lra. nra.
  - intros -> -> ->.
    assert (Hn : nominal = z).
    { unfold nominal, nominal_step. rewrite Reqb_refl. reflexivity. }
    assert (Hi : iterations = 1%nat).
    { rewrite Hit. unfold q. rewrite Hn.
      replace (z / z) with 1 by (field; lra).
      rewrite <- (Int_part_spec 1 1); [reflexivity|lra]. }
    split; [exact Hn|]. split; [exact Hi|].
    rewrite Hstep. unfold M. rewrite Hi. cbn [INR]. f_equal. field.
Qed.

Lemma sym_map_step_policy_witness :
  sym_map_step0 1 0 0 0 = Fin (nominal_step 1 0 0 0) /\
  sym_map_iterations 1 0 0 0 = 1%nat /\
  sym_map_step 1 0 0 0 = Fin 1.
Proof.
  pose proof (sym_map_step_policy 1 0 0 0 ltac:(lra)) as H. cbv zeta in H.
  destruct H as (H0 & _ & _ & _ & _ & _ & _ & Hd).
  destruct (Hd eq_refl eq_refl eq_refl) as (_ & Hi & Hs).
  repeat split; assumption.
Defined.

(** C8 as stated fails: for [z = 0.0074] and [h = 1] the loop runs once
    with the step 0.0074, not with 0.005 clamped to [z]. *)
Lemma sym_map_step_counterexample :
  sym_map_step 0.0074 1 0 0 = Fin 0.0074 /\
  sym_map_iterations 0.0074 1 0 0 = 1%nat /\
  Fin 0.0074 <> Fin (Rmin 0.005 0.0074).
Proof.
  assert (Hz : 0 < 0.0074) by lra.
  assert (Hn : nominal_step 0.0074 1 0 0 = 0.005).
  { unfold nominal_step. rewrite (Reqb_neq 1 0) by lra. cbn [andb].
    unfold Rmin. destruct (Rle_dec 0.005 0.0074); lra. }
  assert (Hi : sym_map_iterations 0.0074 1 0 0 = 1%nat).
  { rewrite sym_map_iterations_eq by exact Hz. rewrite Hn.
    rewrite <- (Int_part_spec (0.0074 / 0.005) 1); [reflexivity|lra]. }
  split; [|split; [exact Hi|]].
  - rewrite sym_map_step_eq by exact Hz. rewrite Hi. cbn [INR]. f_equal. lra.
  - unfold Rmin. destruct (Rle_dec 0.005 0.0074) as [Hle|Hnle];
      [intros H; injection H as H; lra | exfalso; lra].
Qed.

(** ** Frames *)



(** ** Slices of an ensemble *)

Lemma length_assign6 k v X : length (assign6 k v X) = length X.
Proof. unfold assign6. now rewrite length_map, length_seq. Qed.

Lemma nth_error_assign6_other k v X i :
  i mod 6 <> k -> nth_error (assign6 k v X) i = nth_error X i.
Proof.
  intros Hk. destruct (Nat.lt_ge_cases i (length X)) as [Hi|Hi].
  - rewrite (nth_error_nth' _ (Fin 0)) by (rewrite length_assign6; exact Hi).
    rewrite (nth_error_nth' X (Fin 0)) by exact Hi.
    unfold assign6. rewrite nth_map_seq by exact Hi.
    apply Nat.eqb_neq in Hk. rewrite Hk. reflexivity.
  - assert (H1 : nth_error X i = None) by (apply nth_error_None; exact Hi).
    assert (H2 : nth_error (assign6 k v X) i = None)
      by (apply nth_error_None; rewrite length_assign6; exact Hi).
    congruence.
Qed.

Lemma nth_error_assign6_same k v X i :
  (i < length X)%nat -> i mod 6 = k ->
  nth_error (assign6 k v X) i = Some (nth (i / 6) v (nth i X (Fin 0))).
Proof.
  intros Hi Hk.
  rewrite (nth_error_nth' _ (Fin 0)) by (rewrite length_assign6; exact Hi).
  unfold assign6. rewrite nth_map_seq by exact Hi.
  apply Nat.eqb_eq in Hk. rewrite Hk. reflexivity.
Qed.

Lemma gamma_sq_nonzero (m_e_GeV energy : R) :
  m_e_GeV <> 0 -> energy <> 0 ->
  nmul (ndiv (Fin energy) (Fin m_e_GeV)) (ndiv (Fin energy) (Fin m_e_GeV)) <> Fin 0.
Proof.
  intros Hm He. rewrite ndiv_Fin by exact Hm. cbn [nmul].
  intros H. injection H as H. apply Rmult_integral in H.
  assert (Hg : energy / m_e_GeV <> 0).
  { unfold Rdiv. apply Rmult_integral_contrapositive_currified;
      [exact He | now apply Rinv_neq_0_compat]. }
  tauto.
Qed.

Lemma k_divisor_nonzero (m_e_GeV m_e_eV energy : R) :
  m_e_GeV <> 0 -> m_e_eV <> 0 -> energy <> 0 ->
  nmul (nmul (Fin m_e_eV) (Fin 1)) (ndiv (Fin energy) (Fin m_e_GeV)) <> Fin 0.
Proof.
  intros Hm Hv He. rewrite ndiv_Fin by exact Hm. cbn [nmul].
  intros H. injection H as H.
  assert (Hg : energy / m_e_GeV <> 0).
  { unfold Rdiv. apply Rmult_integral_contrapositive_currified;
      [exact He | now apply Rinv_neq_0_compat]. }
  apply Rmult_integral in H. destruct H as [H|H]; [|tauto]. lra.
Qed.

Lemma Fin_nonzero (r : R) : r <> 0 -> Fin r <> Fin 0.
Proof. intros Hr H. injection H as H. contradiction. Qed.

(** With non-zero constants and energy none of the three divisions of
    [rk_track_in_field] raises. *)
Ltac rk_no_raise :=
  rewrite (pdiv_defined (Fin _) (Fin _)) by (apply Fin_nonzero; assumption);
  cbn [raising];
  rewrite (pdiv_defined (Fin 0.5)) by (apply gamma_sq_nonzero; assumption);
  cbn [raising];
  rewrite pdiv_defined by (apply k_divisor_nonzero; assumption);
  cbn [raising].

Section Frame.

Variables m_e_GeV m_e_eV speed_of_light : R.

Lemma sym_map_frame z X h k1 k2 energy i :
  i mod 6 = 5%nat ->
  nth_error (sym_map m_e_GeV z X h k1 k2 energy) i = nth_error X i.
Proof.
  intros Hi. unfold sym_map. cbv zeta.
  destruct (neqb (sym_map_step0 z h k1 k2) (Fin 0)); [reflexivity|].
  rewrite !nth_error_assign6_other by lia. reflexivity.
Qed.

Lemma length_sym_map z X h k1 k2 energy :
  length (sym_map m_e_GeV z X h k1 k2 energy) = length X.
Proof.
  unfold sym_map. cbv zeta.
  destruct (neqb (sym_map_step0 z h k1 k2) (Fin 0)); [reflexivity|].
  now rewrite !length_assign6.
Qed.

Lemma length_linspace a b n : length (linspace a b n) = n.
Proof.
  destruct n as [|[|n]]; try reflexivity.
  unfold linspace. now rewrite length_map, length_seq.
Qed.

Lemma rk_track_in_field_returns y0 l N energy mag_field :
  (2 <= N)%nat -> m_e_GeV <> 0 -> m_e_eV <> 0 -> energy <> 0 ->
  exists u, rk_track_in_field m_e_GeV m_e_eV speed_of_light y0 l N energy mag_field = Some u.
Proof.
  intros HN Hm Hv He. unfold rk_track_in_field.
  destruct (nth_error (linspace (Fin 0) (Fin l) N) 1) eqn:E.
  - cbv zeta. rk_no_raise. eexists. reflexivity.
  - apply nth_error_None in E. rewrite length_linspace in E. lia.
Qed.

Lemma rk_track_in_field_raises y0 l N energy mag_field :
  (N < 2)%nat \/ m_e_GeV = 0 \/ m_e_eV = 0 \/ energy = 0 ->
  rk_track_in_field m_e_GeV m_e_eV speed_of_light y0 l N energy mag_field = None.
Proof.
  intros H. unfold rk_track_in_field.
  destruct (nth_error (linspace (Fin 0) (Fin l) N) 1) eqn:E; [|reflexivity].
  assert (HN : (2 <= N)%nat).
  { assert (H1 : nth_error (linspace (Fin 0) (Fin l) N) 1 <> None) by congruence.
    apply nth_error_Some in H1. rewrite length_linspace in H1. lia. }
  cbv zeta.
  destruct (Req_dec_T m_e_GeV 0) as [Hm|Hm].
  { rewrite Hm, pdiv_zero. reflexivity. }
  rewrite pdiv_Fin by exact Hm. cbn [raising nmul].
  destruct (Req_dec_T energy 0) as [He|He].
  { replace (energy / m_e_GeV * (energy / m_e_GeV)) with 0
      by (rewrite He; field; exact Hm).
    rewrite pdiv_zero. reflexivity. }
  assert (Hg : energy / m_e_GeV <> 0).
  { unfold Rdiv. apply Rmult_integral_contrapositive_currified;
      [exact He | now apply Rinv_neq_0_compat]. }
  rewrite pdiv_Fin by (apply Rmult_integral_contrapositive_currified; exact Hg).
  cbn [raising nmul].
  destruct H as [H | [H | [H | H]]]; try lia; try contradiction.
  replace (m_e_eV * 1 * (energy / m_e_GeV)) with 0 by (rewrite H; ring).
  rewrite pdiv_zero. reflexivity.
Qed.

Lemma rk_field_returns y0 l N energy mag_field :
  (2 <= N)%nat -> m_e_GeV <> 0 -> m_e_eV <> 0 -> energy <> 0 ->
  exists y0', rk_field m_e_GeV m_e_eV speed_of_light y0 l N energy mag_field = Some y0'.
Proof.
  intros HN Hm Hv He. unfold rk_field.
  destruct (rk_track_in_field_returns y0 l N energy mag_field HN Hm Hv He) as [u ->].
  eexists. reflexivity.
Qed.

Lemma rk_field_raises y0 l N energy mag_field :
  (N < 2)%nat \/ m_e_GeV = 0 \/ m_e_eV = 0 \/ energy = 0 ->
  rk_field m_e_GeV m_e_eV speed_of_light y0 l N energy mag_field = None.
Proof.
  intros H. unfold rk_field. now rewrite rk_track_in_field_raises.
Qed.

Lemma rk_field_frame y0 l N energy mag_field y0' i :
  rk_field m_e_GeV m_e_eV speed_of_light y0 l N energy mag_field = Some y0' ->
  i mod 6 = 4%nat \/ i mod 6 = 5%nat ->
  nth_error y0' i = nth_error y0 i.
Proof.
  unfold rk_field.
  destruct (rk_track_in_field m_e_GeV m_e_eV speed_of_light y0 l N energy mag_field)
    as [u|]; [|discriminate].
  cbv zeta. intros H Hi. injection H as <-.
  rewrite !nth_error_assign6_other by lia. reflexivity.
Qed.

End Frame.

(** ** Undefined field samples in the Runge-Kutta tracker *)

Lemma nmul_Undef_l b : nmul Undef b = Undef.
Proof. reflexivity. Qed.
Lemma nadd_Undef_l b : nadd Undef b = Undef.
Proof. reflexivity. Qed.
Lemma nsub_Undef_l b : nsub Undef b = Undef.
Proof. reflexivity. Qed.
Lemma ndiv_Undef_l b : ndiv Undef b = Undef.
Proof. reflexivity. Qed.







Lemma divmod6 p k :
  (k < 6)%nat -> ((6 * p + k) / 6 = p /\ (6 * p + k) mod 6 = k)%nat.
Proof.
  intros Hk. split; symmetry.
  - apply Nat.div_unique with (r := k); [exact Hk | reflexivity].
  - apply Nat.mod_unique with (q := p); [exact Hk | reflexivity].
Qed.

Lemma slice6_count n k : (k < 6)%nat -> ((6 * n + 5 - k) / 6 = n)%nat.
Proof.
  intros Hk. symmetry. apply Nat.div_unique with (r := (5 - k)%nat); lia.
Qed.

Lemma nth_slice6 k X n p :
  length X = (6 * n)%nat -> (k < 6)%nat -> (p < n)%nat ->
  nth p (slice6 k X) (Fin 0) = nth (6 * p + k) X (Fin 0).
Proof.
  intros HX Hk Hp. unfold slice6. rewrite HX, slice6_count by exact Hk.
  now rewrite nth_map_seq.
Qed.

Lemma length_rk_states n f s : length (rk_states n f s) = n.
Proof. revert s. induction n as [|n IH]; intros s; cbn; [reflexivity | now rewrite IH]. Qed.

Lemma nth_rk_states n f s i d :
  (i < n)%nat -> nth i (rk_states n f s) d = Nat.iter i f s.
Proof.
  revert s i. induction n as [|n IH]; intros s i Hi; [lia|].
  destruct i as [|i]; [reflexivity|].
  cbn [rk_states nth]. rewrite IH by lia. symmetry. apply Nat.iter_succ_r.
Qed.

Lemma length_rk_block F s : length (rk_block F s) = 9%nat.
Proof. unfold rk_block. destruct (F _ _ _) as [[? ?] ?]. reflexivity. Qed.


Lemma nth_concat_blocks (bs : list (list num)) i r d :
  (forall b, In b bs -> length b = 9%nat) ->
  (i < length bs)%nat -> (r < 9)%nat ->
  nth (i * 9 + r) (concat bs) d = nth r (nth i bs []) d.
Proof.
  revert i. induction bs as [|b bs IH]; intros i Hlen Hi Hr; [cbn in Hi; lia|].
  cbn [concat]. destruct i as [|i].
  - cbn [Nat.mul Nat.add nth]. apply app_nth1. rewrite Hlen by (left; reflexivity). exact Hr.
  - replace (S i * 9 + r)%nat with (length b + (i * 9 + r))%nat
      by (rewrite Hlen by (left; reflexivity); lia).
    rewrite app_nth2_plus. cbn [nth]. apply IH; [|cbn in Hi; lia|exact Hr].
    intros b' Hb'. apply Hlen. right. exact Hb'.
Qed.

Lemma nth_rk_column F f s N i r d :
  (i < N)%nat -> (r < 9)%nat ->
  nth (i * 9 + r) (concat (map (rk_block F) (rk_states N f s))) d =
  nth r (rk_block F (Nat.iter i f s)) d.
Proof.
  intros Hi Hr. rewrite nth_concat_blocks.
  - rewrite (nth_indep _ [] (rk_block F s))
      by (rewrite length_map, length_rk_states; exact Hi).
    rewrite map_nth, nth_rk_states by exact Hi. reflexivity.
  - intros b Hb. apply in_map_iff in Hb. destruct Hb as [s' [<- _]].
    apply length_rk_block.
  - rewrite length_map, length_rk_states. exact Hi.
  - exact Hr.
Qed.

Section Tracker.

Variables m_e_GeV m_e_eV speed_of_light : R.



End Tracker.

(** ** The claims on the integrators *)




(** C10.  On an ensemble (six numbers per particle) [sym_map] leaves every
    entry at an index [5 mod 6], the momentum deviation, as it was; whatever
    [rk_field] returns has the entries at the indices [4 mod 6] and
    [5 mod 6], the path-length lag and the momentum deviation, as they were.
    [rk_field] returns for at least two samples and a non-zero energy; with
    fewer samples or with the energy 0 it raises and returns nothing. *)
Theorem delta_sigma_frame
    (m_e_GeV m_e_eV speed_of_light : R)
    (z : R) (X : list num) (h k1 k2 energy : R)
    (y0 : list num) (l : R) (N : nat) (rk_energy : R) (mag_field : field)
    (i j : nat) :
  m_e_GeV <> 0 -> m_e_eV <> 0 ->
  (length X mod 6 = 0)%nat -> (length y0 mod 6 = 0)%nat ->
  (i mod 6 = 5)%nat -> (j mod 6 = 4)%nat ->
  nth_error (sym_map m_e_GeV z X h k1 k2 energy) i = nth_error X i /\
  (forall y0',
     rk_field m_e_GeV m_e_eV speed_of_light y0 l N rk_energy mag_field = Some y0' ->
     nth_error y0' i = nth_error y0 i /\ nth_error y0' j = nth_error y0 j) /\
  ((2 <= N)%nat -> rk_energy <> 0 ->
   exists y0',
     rk_field m_e_GeV m_e_eV speed_of_light y0 l N rk_energy mag_field = Some y0') /\
  ((N < 2)%nat \/ rk_energy = 0 ->
   rk_field m_e_GeV m_e_eV speed_of_light y0 l N rk_energy mag_field = None).
Proof.
  intros Hm Hv _ _ Hi Hj. split; [|split; [|split]].
  - now apply sym_map_frame.
  - intros y0' Hrk. split.
    + apply (rk_field_frame _ _ _ _ _ _ _ _ _ _ Hrk). right. exact Hi.
    + apply (rk_field_frame _ _ _ _ _ _ _ _ _ _ Hrk). left. exact Hj.
  - intros HN He. now apply rk_field_returns.
  - intros H. apply rk_field_raises. tauto.
Qed.

Lemma delta_sigma_frame_witness :
  nth_error (sym_map 0.000511 1 [Fin 1; Fin 2; Fin 3; Fin 4; Fin 5; Fin 6] 1 0 0 0) 5
  = nth_error [Fin 1; Fin 2; Fin 3; Fin 4; Fin 5; Fin 6] 5 /\
  (forall y0',
     rk_field 0.000511 511000 299792458
       [Fin 1; Fin 2; Fin 3; Fin 4; Fin 5; Fin 6] 1 2 1 nan_field = Some y0' ->
     nth_error y0' 5 = nth_error [Fin 1; Fin 2; Fin 3; Fin 4; Fin 5; Fin 6] 5 /\
     nth_error y0' 4 = nth_error [Fin 1; Fin 2; Fin 3; Fin 4; Fin 5; Fin 6] 4) /\
  ((2 <= 2)%nat -> 1 <> 0 ->
   exists y0',
     rk_field 0.000511 511000 299792458
       [Fin 1; Fin 2; Fin 3; Fin 4; Fin 5; Fin 6] 1 2 1 nan_field = Some y0') /\
  ((2 < 2)%nat \/ 1 = 0 ->
   rk_field 0.000511 511000 299792458
     [Fin 1; Fin 2; Fin 3; Fin 4; Fin 5; Fin 6] 1 2 1 nan_field = None).
Proof.
  apply (delta_sigma_frame 0.000511 511000 299792458
           1 [Fin 1; Fin 2; Fin 3; Fin 4; Fin 5; Fin 6] 1 0 0 0
           [Fin 1; Fin 2; Fin 3; Fin 4; Fin 5; Fin 6] 1 2 1 nan_field 5 4);
    try reflexivity; lra.
Defined.

(** * Further properties of the code *)

(** ** The sparsity and the special cases of the tensors *)

Lemma supported_zeros3 P : supported P zeros3.
Proof. intros i j k _. reflexivity. Qed.

Lemma supported_tset P T a b c v :
  P a b c = true -> supported P T -> supported P (tset T a b c v).
Proof.
  intros HP HT i j k Hf. unfold tset.
  destruct (Nat.eqb_spec i a); destruct (Nat.eqb_spec j b); destruct (Nat.eqb_spec k c);
    cbn [andb]; try (apply HT; assumption).
  subst. congruence.
Qed.

Lemma t_nnn_supported L h k1 k2 : supported midplane (t_nnn L h k1 k2).
Proof.
  unfold t_nnn, ceq0. cbv zeta.
  (repeat match goal with |- context [cneq0 ?z] => destruct (cneq0 z) end);
    cbv beta iota zeta delta [andb negb];
    repeat (apply supported_tset; [reflexivity|]); apply supported_zeros3.
Qed.

Lemma fringe_ent_supported h k1 e h_pole gap fint :
  supported midplane (snd (fringe_ent h k1 e h_pole gap fint)).
Proof.
  unfold fringe_ent. cbv zeta. cbn [snd].
  repeat (apply supported_tset; [reflexivity|]); apply supported_zeros3.
Qed.

Lemma fringe_ext_supported h k1 e h_pole gap fint :
  supported midplane (snd (fringe_ext h k1 e h_pole gap fint)).
Proof.
  unfold fringe_ext. cbv zeta. cbn [snd].
  repeat (apply supported_tset; [reflexivity|]); apply supported_zeros3.
Qed.

(** X1.  The sparsity of the second-order tensors.  [t_nnn], [fringe_ent]
    and [fringe_ext] write only entries that respect the mid-plane
    symmetry: in the rows of [x], [x'] and the path length only products of
    two horizontal-or-momentum or of two vertical coordinates, in the rows
    of [y] and [y'] only products of a horizontal and a vertical coordinate
    or of a vertical coordinate and the momentum.  Every other entry is
    zero, for all arguments. *)
Theorem tensor_midplane_pattern (L h k1 k2 e h_pole gap fint : R) (i j k : nat) :
  midplane i j k = false ->
  t_nnn L h k1 k2 i j k = Fin 0 /\
  snd (fringe_ent h k1 e h_pole gap fint) i j k = Fin 0 /\
  snd (fringe_ext h k1 e h_pole gap fint) i j k = Fin 0.
Proof.
  intros H. repeat split.
  - now apply t_nnn_supported.
  - now apply fringe_ent_supported.
  - now apply fringe_ext_supported.
Qed.

Lemma tensor_midplane_pattern_witness :
  t_nnn 1 1 1 1 0%nat 2%nat 5%nat = Fin 0 /\
  snd (fringe_ent 1 1 1 1 1 1) 0%nat 2%nat 5%nat = Fin 0 /\
  snd (fringe_ext 1 1 1 1 1 1) 0%nat 2%nat 5%nat = Fin 0.
Proof. apply (tensor_midplane_pattern 1 1 1 1 1 1 1 1 0 2 5). reflexivity. Defined.

Lemma cos_PI4_pos : 0 < cos (PI / 4).
Proof. pose proof PI_RGT_0. apply cos_gt_0; lra. Qed.

(** X7.  Entrance and exit edges.  [fringe_ext] returns the matrix of
    [fringe_ent].  For [cos e <> 0] the two tensors compare entry by entry:
    of the twelve entries they assign, [T[0,0,0]], [T[0,2,2]], [T[1,0,1]],
    [T[1,2,3]], [T[2,0,2]], [T[3,0,3]], [T[3,1,2]] are negated, the
    chromatic [T[1,0,5]], [T[3,2,5]] are the same, and
    [T[1,0,0]], [T[1,2,2]], [T[3,0,2]] of the exit are those of the
    entrance minus [h^2/2 tan^3 e], minus [h^2 (1/2 + 3/2 tan^2 e) tan e]
    and plus [(k1 + h^2 sec^2 e) tan e]; every other entry is zero in both;
    and every entry other than [T[3,2,5]] is a real number. *)
Theorem fringe_ent_ext_signs (h k1 e h_pole gap fint : R) :
  cos e <> 0 ->
  let Tn := snd (fringe_ent h k1 e h_pole gap fint) in
  let Tx := snd (fringe_ext h k1 e h_pole gap fint) in
  let t := tan e in
  let sec := 1 / cos e in
  (forall i j, fst (fringe_ext h k1 e h_pole gap fint) i j
               = fst (fringe_ent h k1 e h_pole gap fint) i j) /\
  (Tx 0 0 0 = nneg (Tn 0 0 0) /\ Tx 0 2 2 = nneg (Tn 0 2 2) /\
   Tx 1 0 1 = nneg (Tn 1 0 1) /\ Tx 1 2 3 = nneg (Tn 1 2 3) /\
   Tx 2 0 2 = nneg (Tn 2 0 2) /\ Tx 3 0 3 = nneg (Tn 3 0 3) /\
   Tx 3 1 2 = nneg (Tn 3 1 2))%nat /\
  (Tx 1 0 5 = Tn 1 0 5 /\ Tx 3 2 5 = Tn 3 2 5)%nat /\
  (Tx 1 0 0 = nsub (Tn 1 0 0) (Fin (h * h / 2 * (t * t * t))) /\
   Tx 1 2 2 = nsub (Tn 1 2 2) (Fin (h * h * (1 / 2 + 3 / 2 * (t * t)) * t)) /\
   Tx 3 0 2 = nadd (Tn 3 0 2) (Fin ((k1 + h * h * (sec * sec)) * t)))%nat /\
  (forall i j k, edge_entry i j k = false -> Tn i j k = Fin 0 /\ Tx i j k = Fin 0) /\
  (forall i j k, (i, j, k) <> (3, 2, 5)%nat ->
                 defined (Tn i j k) /\ defined (Tx i j k)).
Proof.
  intros He. cbv zeta. split; [intros; apply fringe_ext_R|].
  split; [|split; [|split; [|split]]].
  - unfold fringe_ent, fringe_ext. cbv zeta. cbn [snd]. unfold tset, zeros3.
    cbn [Nat.eqb andb].
    repeat (progress (cbn [nadd nsub nmul nneg ntan ncos];
                      rewrite ?ndiv_Fin by (assumption || lra))).
    repeat split; f_equal; field; assumption.
  - unfold fringe_ent, fringe_ext. cbv zeta. cbn [snd]. unfold tset, zeros3.
    cbn [Nat.eqb andb]. split; reflexivity.
  - unfold fringe_ent, fringe_ext. cbv zeta. cbn [snd]. unfold tset, zeros3.
    cbn [Nat.eqb andb].
    repeat (progress (cbn [nadd nsub nmul nneg ntan ncos];
                      rewrite ?ndiv_Fin by (assumption || lra))).
    repeat split; f_equal; field; assumption.
  - intros i j k Hf. split.
    + revert i j k Hf. change (supported edge_entry (snd (fringe_ent h k1 e h_pole gap fint))).
      unfold fringe_ent. cbv zeta. cbn [snd].
      repeat (apply supported_tset; [reflexivity|]); apply supported_zeros3.
    + revert i j k Hf. change (supported edge_entry (snd (fringe_ext h k1 e h_pole gap fint))).
      unfold fringe_ext. cbv zeta. cbn [snd].
      repeat (apply supported_tset; [reflexivity|]); apply supported_zeros3.
  - intros i j k Hne. split.
    + unfold fringe_ent. fringe_T_defined_off Hne.
    + unfold fringe_ext. fringe_T_defined_off Hne.
Qed.

Lemma fringe_ent_ext_signs_witness :
  let Tn := snd (fringe_ent 1 2 (PI / 4) 3 1 1) in
  let Tx := snd (fringe_ext 1 2 (PI / 4) 3 1 1) in
  let t := tan (PI / 4) in
  let sec := 1 / cos (PI / 4) in
  (forall i j, fst (fringe_ext 1 2 (PI / 4) 3 1 1) i j
               = fst (fringe_ent 1 2 (PI / 4) 3 1 1) i j) /\
  (Tx 0 0 0 = nneg (Tn 0 0 0) /\ Tx 0 2 2 = nneg (Tn 0 2 2) /\
   Tx 1 0 1 = nneg (Tn 1 0 1) /\ Tx 1 2 3 = nneg (Tn 1 2 3) /\
   Tx 2 0 2 = nneg (Tn 2 0 2) /\ Tx 3 0 3 = nneg (Tn 3 0 3) /\
   Tx 3 1 2 = nneg (Tn 3 1 2))%nat /\
  (Tx 1 0 5 = Tn 1 0 5 /\ Tx 3 2 5 = Tn 3 2 5)%nat /\
  (Tx 1 0 0 = nsub (Tn 1 0 0) (Fin (1 * 1 / 2 * (t * t * t))) /\
   Tx 1 2 2 = nsub (Tn 1 2 2) (Fin (1 * 1 * (1 / 2 + 3 / 2 * (t * t)) * t)) /\
   Tx 3 0 2 = nadd (Tn 3 0 2) (Fin ((2 + 1 * 1 * (sec * sec)) * t)))%nat /\
  (forall i j k, edge_entry i j k = false -> Tn i j k = Fin 0 /\ Tx i j k = Fin 0) /\
  (forall i j k, (i, j, k) <> (3, 2, 5)%nat ->
                 defined (Tn i j k) /\ defined (Tx i j k)).
Proof.
  refine (fringe_ent_ext_signs 1 2 (PI / 4) 3 1 1 _).
  pose proof cos_PI4_pos. lra.
Defined.

Lemma cneq0_csqrt a : a <> 0 -> cneq0 (csqrt (Fin a)) = true.
Proof.
  intros Ha. unfold csqrt. destruct (Rleb_spec 0 a) as [Hle|Hgt]; cbn [cneq0].
  - rewrite (Reqb_neq (sqrt a) 0); [reflexivity|].
    assert (0 < sqrt a) by (apply sqrt_lt_R0; lra). lra.
  - rewrite Reqb_refl, (Reqb_neq (sqrt (- a)) 0); [reflexivity|].
    assert (0 < sqrt (- a)) by (apply sqrt_lt_R0; lra). lra.
Qed.

Lemma ndiv_by_zero a d : d = 0 -> ndiv a (Fin d) = Undef.
Proof. intros ->. destruct a; cbn; [now rewrite Reqb_refl | reflexivity]. Qed.

(** X4.  A division by zero inside [t_nnn].  For a combined-function
    magnet with [k1 = -h^2/5], [h] not zero, the denominator
    [kx2 - 4 ky2] of the coupling integrals is zero although neither
    focusing strength vanishes, and the entries [T[0,2,3]], [T[0,3,3]],
    [T[2,0,2]] have no value, whatever the length and [k2] are. *)
Theorem t_nnn_resonance (L h k2 : R) :
  h <> 0 ->
  t_nnn L h (- (h * h) / 5) k2 0%nat 2%nat 3%nat = Undef /\
  t_nnn L h (- (h * h) / 5) k2 0%nat 3%nat 3%nat = Undef /\
  t_nnn L h (- (h * h) / 5) k2 2%nat 0%nat 2%nat = Undef.
Proof.
  intros Hh.
  assert (Hhh : 0 < h * h) by nra.
  unfold t_nnn, ceq0. cbn [nadd nsub nmul nneg].
  rewrite !cneq0_csqrt by lra.
  cbn [negb andb ceq0]. unfold tset, zeros3. cbn [Nat.eqb andb].
  rewrite !(ndiv_by_zero _ (- (h * h) / 5 + h * h - 4 * - (- (h * h) / 5))) by lra.
  rewrite ?nmul_Undef_r, ?nadd_Undef_r, ?nsub_Undef_r. cbn [nadd nsub nmul].
  rewrite ?nmul_Undef_r, ?nadd_Undef_r, ?nsub_Undef_r.
  repeat split; reflexivity.
Qed.

Lemma t_nnn_resonance_witness :
  t_nnn 1 1 (- (1 * 1) / 5) 0 0%nat 2%nat 3%nat = Undef /\
  t_nnn 1 1 (- (1 * 1) / 5) 0 0%nat 3%nat 3%nat = Undef /\
  t_nnn 1 1 (- (1 * 1) / 5) 0 2%nat 0%nat 2%nat = Undef.
Proof. apply (t_nnn_resonance 1 1 0). lra. Defined.

Lemma csqrt_pos a : 0 < a -> csqrt (Fin a) = CFin (sqrt a) 0.
Proof.
  intros Ha. unfold csqrt. destruct (Rleb_spec 0 a); [reflexivity | exfalso; lra].
Qed.

Lemma csqrt_neg a : a < 0 -> csqrt (Fin a) = CFin 0 (sqrt (- a)).
Proof.
  intros Ha. unfold csqrt. destruct (Rleb_spec 0 a); [exfalso; lra | reflexivity].
Qed.

Ltac quad_side :=
  assumption || lra || nra.

Lemma zero_on_zeros3 Q : zero_on Q zeros3.
Proof. intros i j k _. reflexivity. Qed.

Lemma zero_on_tset Q T a b c v :
  (Q a b c = true -> v = Fin 0) -> zero_on Q T -> zero_on Q (tset T a b c v).
Proof.
  intros Hv HT i j k HQ. unfold tset.
  destruct (Nat.eqb_spec i a); destruct (Nat.eqb_spec j b); destruct (Nat.eqb_spec k c);
    cbn [andb]; try (apply HT; assumption).
  subst. apply Hv. exact HQ.
Qed.

Ltac quad_entries :=
  repeat (apply zero_on_tset;
          [intros HQ; first [discriminate HQ
                            | f_equal; field; repeat split; quad_side]|]);
  apply zero_on_zeros3.

Lemma t_nnn_quadrupole_pos (L k1 : R) :
  0 < k1 -> zero_on geometric (t_nnn L 0 k1 0).
Proof.
  intros Hk.
  unfold t_nnn, ceq0. cbn [nadd nsub nmul nneg].
  rewrite (csqrt_pos (k1 + 0 * 0)), (csqrt_neg (- k1)) by lra.
  set (a := sqrt (k1 + 0 * 0)). set (b := sqrt (- - k1)).
  assert (Ha : 0 < a) by (apply sqrt_lt_R0; lra).
  assert (Hb : 0 < b) by (apply sqrt_lt_R0; lra).
  assert (Ha2 : a * a + 0 * 0 <> 0) by nra.
  assert (Hb2 : 0 * 0 + b * b <> 0) by nra.
  assert (Hk1 : k1 + 0 * 0 <> 0) by lra.
  assert (Hk2 : (k1 + 0 * 0) * (k1 + 0 * 0) <> 0) by nra.
  assert (Hk3 : - k1 <> 0) by lra.
  assert (Hk4 : - k1 * - k1 <> 0) by nra.
  assert (Hd : k1 + 0 * 0 - 4 * - k1 <> 0) by lra.
  cbn [cneq0 negb andb]. rewrite Reqb_refl, (Reqb_neq a 0), (Reqb_neq b 0) by lra.
  cbn [negb andb].
  rewrite ?half_dec.
  num_norm_by ltac:(quad_side).
  quad_entries.
Qed.

Lemma t_nnn_quadrupole_neg (L k1 : R) :
  k1 < 0 -> zero_on geometric (t_nnn L 0 k1 0).
Proof.
  intros Hk.
  unfold t_nnn, ceq0. cbn [nadd nsub nmul nneg].
  rewrite (csqrt_neg (k1 + 0 * 0)), (csqrt_pos (- k1)) by lra.
  set (a := sqrt (- (k1 + 0 * 0))). set (b := sqrt (- k1)).
  assert (Ha : 0 < a) by (apply sqrt_lt_R0; lra).
  assert (Hb : 0 < b) by (apply sqrt_lt_R0; lra).
  assert (Ha2 : 0 * 0 + a * a <> 0) by nra.
  assert (Hb2 : b * b + 0 * 0 <> 0) by nra.
  assert (Hk1 : k1 + 0 * 0 <> 0) by lra.
  assert (Hk2 : (k1 + 0 * 0) * (k1 + 0 * 0) <> 0) by nra.
  assert (Hk3 : - k1 <> 0) by lra.
  assert (Hk4 : - k1 * - k1 <> 0) by nra.
  assert (Hd : k1 + 0 * 0 - 4 * - k1 <> 0) by lra.
  cbn [cneq0 negb andb]. rewrite Reqb_refl, (Reqb_neq a 0), (Reqb_neq b 0) by lra.
  cbn [negb andb].
  rewrite ?half_dec.
  num_norm_by ltac:(quad_side).
  quad_entries.
Qed.

Lemma t_nnn_no_field_table (L k2 : R) (i j k : nat) :
  t_nnn L 0 0 k2 i j k = Fin (sextupole_T L (k2 / 2) i j k).
Proof.
  t_nnn_no_field.
  do 7 (try destruct i as [|i]); do 7 (try destruct j as [|j]);
    do 7 (try destruct k as [|k]);
    cbn [Nat.eqb andb orb sextupole_T]; f_equal; try reflexivity; field.
Qed.

(** X2.  The map of a pure sextupole in closed form.  For [h = 0] and
    [k1 = 0] every entry of [t_nnn] is the polynomial in [L] of
    [sextupole_T] with [K2 = k2/2]: the kicks of [x'' = -K2 (x^2 - y^2)],
    [y'' = 2 K2 x y] integrated along straight lines and the path-length
    terms [L/2] of a drift; no entry is undefined and the momentum
    deviation enters nowhere. *)
Theorem t_nnn_sextupole (L k2 : R) (i j k : nat) :
  t_nnn L 0 0 k2 i j k = Fin (sextupole_T L (k2 / 2) i j k).
Proof. apply t_nnn_no_field_table. Qed.

(** X3.  A quadrupole has no geometric second-order term.  For [h = 0]
    and [k2 = 0] and any [k1], every entry of [t_nnn] outside the
    path-length row [i = 4] and outside the momentum column [k = 5] is
    zero (and defined): only chromatic and path-length terms remain. *)
Theorem t_nnn_quadrupole (L k1 : R) (i j k : nat) :
  i <> 4%nat -> k <> 5%nat -> t_nnn L 0 k1 0 i j k = Fin 0.
Proof.
  intros Hi Hk5.
  assert (HQ : geometric i j k = true).
  { unfold geometric. apply andb_true_intro. split; apply negb_true_iff, Nat.eqb_neq; assumption. }
  destruct (Rtotal_order k1 0) as [Hn|[->|Hp]].
  - now apply t_nnn_quadrupole_neg.
  - rewrite t_nnn_no_field_table. f_equal.
    do 7 (try destruct i as [|i]); try congruence;
      do 7 (try destruct j as [|j]); do 7 (try destruct k as [|k]); try congruence;
      cbn [sextupole_T]; field.
  - now apply t_nnn_quadrupole_pos.
Qed.

Lemma t_nnn_quadrupole_witness : t_nnn 1 0 1 0 0%nat 0%nat 0%nat = Fin 0.
Proof. apply (t_nnn_quadrupole 1 1 0 0 0); lia. Defined.

(** ** The edges *)

Lemma edge_matrix_mul (a b a' b' : R) i j :
  (i < 6)%nat -> (j < 6)%nat ->
  mmul (edge_matrix (Fin a) (Fin b)) (edge_matrix (Fin a') (Fin b')) i j =
  edge_matrix (Fin (a + a')) (Fin (b + b')) i j.
Proof.
  intros Hi Hj. unfold mmul. cbn [fold_right seq].
  below6 i; below6 j; cbn; f_equal; ring.
Qed.

(** X5.  What the two edge matrices compose to.  When [cos e] and
    [cos(e - phi)] are not zero, the product of the exit matrix and the
    entrance matrix is the identity with [R[1,0] = 2 h tan(e)] and
    [R[3,2] = -2 h tan(e - phi)]: the two edge kicks add. *)
Theorem fringe_compose (h k1 e h_pole gap fint : R) (i j : nat) :
  cos e <> 0 -> cos (e - fringe_phi h e gap fint) <> 0 ->
  (i < 6)%nat -> (j < 6)%nat ->
  mmul (fst (fringe_ext h k1 e h_pole gap fint))
       (fst (fringe_ent h k1 e h_pole gap fint)) i j =
  edge_matrix (Fin (2 * (h * tan e)))
              (Fin (2 * (- h * tan (e - fringe_phi h e gap fint)))) i j.
Proof.
  intros He Hphi Hi Hj.
  unfold mmul. cbn [fold_right seq].
  rewrite !fringe_ext_R.
  rewrite !fringe_ent_R_defined by assumption.
  pose proof (edge_matrix_mul (h * tan e) (- h * tan (e - fringe_phi h e gap fint))
                (h * tan e) (- h * tan (e - fringe_phi h e gap fint)) i j Hi Hj) as E.
  unfold mmul in E. cbn [fold_right seq] in E. rewrite E.
  replace (h * tan e + h * tan e) with (2 * (h * tan e)) by ring.
  replace (- h * tan (e - fringe_phi h e gap fint) + - h * tan (e - fringe_phi h e gap fint))
    with (2 * (- h * tan (e - fringe_phi h e gap fint))) by ring.
  reflexivity.
Qed.

Lemma fringe_compose_witness :
  mmul (fst (fringe_ext 1 2 (PI / 4) 3 (1 / 10) 1))
       (fst (fringe_ent 1 2 (PI / 4) 3 (1 / 10) 1)) 3%nat 2%nat =
  edge_matrix (Fin (2 * (1 * tan (PI / 4))))
              (Fin (2 * (- 1 * tan (PI / 4 - fringe_phi 1 (PI / 4) (1 / 10) 1))))
              3%nat 2%nat.
Proof.
  apply (fringe_compose 1 2 (PI / 4) 3 (1 / 10) 1 3 2).
  - exact cos_PI4_neq_0.
  - exact cos_edge_witness.
  - lia.
  - lia.
Defined.

(** X6.  An edge of a magnet without field does nothing: for [h = 0] and
    [k1 = 0], with [cos e] not zero, both [fringe_ent] and [fringe_ext]
    return the identity matrix and a tensor whose entries are all zero,
    whatever the pole curvature, the gap and the fringe integral. *)
Theorem fringe_no_field (e h_pole gap fint : R) (i j k : nat) :
  cos e <> 0 ->
  fst (fringe_ent 0 0 e h_pole gap fint) i j = eye6 i j /\
  snd (fringe_ent 0 0 e h_pole gap fint) i j k = Fin 0 /\
  fst (fringe_ext 0 0 e h_pole gap fint) i j = eye6 i j /\
  snd (fringe_ext 0 0 e h_pole gap fint) i j k = Fin 0.
Proof.
  intros He.
  assert (Hphi : fringe_phi 0 e gap fint = 0) by (unfold fringe_phi; ring).
  assert (Hc : cos (e - fringe_phi 0 e gap fint) <> 0)
    by (rewrite Hphi, Rminus_0_r; exact He).
  assert (Hc2 : cos (e - fringe_phi 0 e gap fint) * cos (e - fringe_phi 0 e gap fint) <> 0).
  { intros H0. apply Rmult_integral in H0. tauto. }
  unfold fringe_phi in Hc, Hc2.
  assert (HR : fst (fringe_ent 0 0 e h_pole gap fint) i j = eye6 i j).
  { rewrite fringe_ent_R_defined by (assumption || (unfold fringe_phi; assumption)).
    unfold edge_matrix, mset, eye6.
    destruct ((i =? 3)%nat && (j =? 2)%nat) eqn:E32.
    - apply andb_prop in E32. destruct E32 as [Ei Ej].
      apply Nat.eqb_eq in Ei, Ej. subst. cbn. f_equal. ring.
    - destruct ((i =? 1)%nat && (j =? 0)%nat) eqn:E10; [|reflexivity].
      apply andb_prop in E10. destruct E10 as [Ei Ej].
      apply Nat.eqb_eq in Ei, Ej. subst. cbn. f_equal. ring. }
  repeat split.
  - exact HR.
  - unfold fringe_ent. cbv zeta. cbn [snd].
    repeat (progress
      (cbn [nadd nsub nmul nneg nsqr ncos nsin];
       rewrite ?ndiv_Fin, ?ntan_Fin by (assumption || lra))).
    unfold tset, zeros3.
    repeat match goal with
           | |- context [if ?c then _ else _] => destruct c
           end; f_equal; field; repeat split; try assumption; try lra.
  - rewrite fringe_ext_R. exact HR.
  - unfold fringe_ext. cbv zeta. cbn [snd].
    repeat (progress
      (cbn [nadd nsub nmul nneg nsqr ncos nsin];
       rewrite ?ndiv_Fin, ?ntan_Fin by (assumption || lra))).
    unfold tset, zeros3.
    repeat match goal with
           | |- context [if ?c then _ else _] => destruct c
           end; f_equal; field; repeat split; try assumption; try lra.
Qed.

Lemma fringe_no_field_witness :
  fst (fringe_ent 0 0 0 1 1 1) 3%nat 2%nat = eye6 3%nat 2%nat /\
  snd (fringe_ent 0 0 0 1 1 1) 3%nat 2%nat 5%nat = Fin 0 /\
  fst (fringe_ext 0 0 0 1 1 1) 3%nat 2%nat = eye6 3%nat 2%nat /\
  snd (fringe_ext 0 0 0 1 1 1) 3%nat 2%nat 5%nat = Fin 0.
Proof. apply (fringe_no_field 0 1 1 1 3 2 5). rewrite cos_0. lra. Defined.

(** ** The Hamiltonian and the steppers *)

(** A function whose increment at [x] is [e l + e^2 (a + b e)] has the
    derivative [l] at [x]. *)
Lemma derivable_pt_lim_cubic (f : R -> R) (x l a b : R) :
  (forall e, f (x + e) - f x = e * l + e * e * (a + b * e)) ->
  derivable_pt_lim f x l.
Proof.
  intros Hf eps Heps.
  set (M := Rabs a + Rabs b + 1).
  assert (HM : 0 < M) by (unfold M; pose proof (Rabs_pos a); pose proof (Rabs_pos b); lra).
  assert (Hd : 0 < Rmin 1 (eps / M)).
  { apply Rmin_glb_lt; [lra|]. apply Rdiv_lt_0_compat; assumption. }
  exists (mkposreal _ Hd). intros e He Hlt. cbn [pos] in Hlt.
  rewrite Hf.
  replace ((e * l + e * e * (a + b * e)) / e - l) with (e * (a + b * e)) by (field; exact He).
  assert (He1 : Rabs e < 1) by (eapply Rlt_le_trans; [exact Hlt | apply Rmin_l]).
  assert (He2 : Rabs e < eps / M) by (eapply Rlt_le_trans; [exact Hlt | apply Rmin_r]).
  rewrite Rabs_mult.
  assert (Hab : Rabs (a + b * e) < M).
  { eapply Rle_lt_trans; [apply Rabs_triang|]. rewrite Rabs_mult. unfold M.
    pose proof (Rabs_pos b). pose proof (Rabs_pos e). nra. }
  pose proof (Rabs_pos e). pose proof (Rabs_pos (a + b * e)).
  assert (Rabs e * Rabs (a + b * e) <= Rabs e * M) by nra.
  assert (Rabs e * M < eps).
  { apply Rmult_lt_reg_r with (/ M); [now apply Rinv_0_lt_compat|].
    rewrite Rmult_assoc, Rinv_r by lra. unfold Rdiv in He2. lra. }
  lra.
Qed.

(** X8.  [H23] returns Hamilton's equations of the Hamiltonian in its
    documentation.  For finite arguments with [beta] and [1 + beta] not
    zero the result is defined, its last component is 0, and the other five
    are the partial derivatives of [H23_hamiltonian]: [x' = dH/dpx],
    [px' = -dH/dx], [y' = dH/dpy], [py' = -dH/dy], [sigma' = dH/dps]. *)
Theorem H23_hamilton_equations (x px y py sigma ps h k1 k2 beta g_inv : R) :
  beta <> 0 -> 1 + beta <> 0 ->
  let H := H23_hamiltonian h k1 k2 beta g_inv in
  exists x1 px1 y1 py1 sigma1 : R,
    H23 (V6 (Fin x) (Fin px) (Fin y) (Fin py) (Fin sigma) (Fin ps))
        (Fin h) (Fin k1) (Fin k2) (Fin beta) (Fin g_inv)
    = V6 (Fin x1) (Fin px1) (Fin y1) (Fin py1) (Fin sigma1) (Fin 0) /\
    derivable_pt_lim (fun t => H x t y py ps) px x1 /\
    derivable_pt_lim (fun t => H t px y py ps) x (- px1) /\
    derivable_pt_lim (fun t => H x px y t ps) py y1 /\
    derivable_pt_lim (fun t => H x px t py ps) y (- py1) /\
    derivable_pt_lim (fun t => H x px y py t) ps sigma1.
Proof.
  intros Hb Hb1 H.
  assert (Hbb : beta * (1 + beta) <> 0).
  { intros H0. apply Rmult_integral in H0. tauto. }
  assert (H2b : 2 * beta <> 0) by lra.
  unfold H23. cbv zeta. cbn [v0 v1 v2 v3 v4 v5].
  repeat (progress (cbn [nadd nsub nmul nneg]; rewrite ?ndiv_Fin by (assumption || lra))).
  do 5 eexists. split; [reflexivity|].
  unfold H, H23_hamiltonian.
  split; [|split; [|split; [|split]]].
  - apply derivable_pt_lim_cubic with (a := (1 + h * x - ps / beta) / 2) (b := 0).
    intros e. field. split; assumption.
  - apply derivable_pt_lim_cubic
      with (a := (h * h + k1) / 2 + (2 * h * k1 + k2) * x / 2)
           (b := (2 * h * k1 + k2) / 6).
    intros e. field. split; assumption.
  - apply derivable_pt_lim_cubic with (a := (1 + h * x - ps / beta) / 2) (b := 0).
    intros e. field. split; assumption.
  - apply derivable_pt_lim_cubic
      with (a := - k1 / 2 - (h * k1 + k2) * x / 2) (b := 0).
    intros e. field. split; assumption.
  - apply derivable_pt_lim_cubic with (a := 0) (b := 0).
    intros e. field. split; assumption.
Qed.

Lemma H23_hamilton_equations_witness :
  let H := H23_hamiltonian 1 1 1 1 0 in
  exists x1 px1 y1 py1 sigma1 : R,
    H23 (V6 (Fin 1) (Fin 2) (Fin 3) (Fin 4) (Fin 5) (Fin 6))
        (Fin 1) (Fin 1) (Fin 1) (Fin 1) (Fin 0)
    = V6 (Fin x1) (Fin px1) (Fin y1) (Fin py1) (Fin sigma1) (Fin 0) /\
    derivable_pt_lim (fun t => H 1 t 3 4 6) 2 x1 /\
    derivable_pt_lim (fun t => H t 2 3 4 6) 1 (- px1) /\
    derivable_pt_lim (fun t => H 1 2 3 t 6) 4 y1 /\
    derivable_pt_lim (fun t => H 1 2 t 4 6) 3 (- py1) /\
    derivable_pt_lim (fun t => H 1 2 3 4 t) 6 sigma1.
Proof. refine (H23_hamilton_equations 1 2 3 4 5 6 1 1 1 1 0 _ _); lra. Defined.

Lemma verlet1O_defined (x px y py sigma ps step h k1 k2 beta g_inv : R) :
  beta <> 0 ->
  verlet1O (V6 x px y py sigma ps) step h k1 k2 beta g_inv =
  V6 (Fin (x + step * px))
     (Fin (px - step * ((h * h + k1) * (x + step * px) - h * (ps / beta))))
     (Fin (y + step * py))
     (Fin (py + step * k1 * (y + step * py)))
     (Fin (sigma - step * h * (x + step * px) / beta))
     (Fin ps).
Proof.
  intros Hb. unfold verlet1O. cbv zeta. cbn [v0 v1 v2 v3 v4 v5].
  repeat (progress (cbn [nadd nsub nmul nneg]; rewrite ?ndiv_Fin by assumption)).
  reflexivity.
Qed.

(** X10.  [verlet1O] is a symplectic map.  For any three finite phase-space
    points [a], [b], [c] and any finite step and strengths with [beta] not
    zero, the two-form [dx ^ dpx + dy ^ dpy + dsigma ^ dps] of the
    displacements [b - a] and [c - a] is the same before and after the
    step. *)
Theorem verlet1O_symplectic
    (xa pxa ya pya sa psa xb pxb yb pyb sb psb xc pxc yc pyc sc psc : R)
    (step h k1 k2 beta g_inv : R) :
  beta <> 0 ->
  let a := V6 xa pxa ya pya sa psa in
  let b := V6 xb pxb yb pyb sb psb in
  let c := V6 xc pxc yc pyc sc psc in
  let F := fun v => verlet1O v step h k1 k2 beta g_inv in
  omega (vsub (F b) (F a)) (vsub (F c) (F a)) = omega (vsub b a) (vsub c a) /\
  defined (omega (vsub b a) (vsub c a)).
Proof.
  intros Hb a b c F. unfold F, a, b, c.
  rewrite !verlet1O_defined by assumption.
  unfold omega, vsub. cbn [v0 v1 v2 v3 v4 v5 nadd nsub nmul].
  split; [|eexists; reflexivity].
  f_equal. field. assumption.
Qed.

Lemma verlet1O_symplectic_witness :
  let a := V6 0 0 0 0 0 0 in
  let b := V6 1 0 0 0 0 0 in
  let c := V6 0 1 0 0 0 0 in
  let F := fun v => verlet1O v 1 1 1 0 1 0 in
  omega (vsub (F b) (F a)) (vsub (F c) (F a)) = omega (vsub b a) (vsub c a) /\
  defined (omega (vsub b a) (vsub c a)).
Proof.
  refine (verlet1O_symplectic 0 0 0 0 0 0 1 0 0 0 0 0 0 1 0 0 0 0 1 1 1 0 1 0 _).
  lra.
Defined.

Ltac undef_close :=
  repeat (progress
    (cbn [nadd nsub nmul nneg];
     rewrite ?nmul_Undef_l, ?nmul_Undef_r, ?nadd_Undef_l, ?nadd_Undef_r,
       ?nsub_Undef_l, ?nsub_Undef_r, ?ndiv_Undef_l, ?ndiv_Undef_r));
  reflexivity.

(** X9.  The loop body that [sym_map] writes out in line is [verlet].
    Wherever [verlet] returns, one pass of the loop with the constants
    [c1 .. c4] that [sym_map] precomputes gives the [x], [px], [y], [py]
    and [sigma] that [verlet] returns for the same step, strengths, [beta]
    and [g_inv], all of them real numbers, and it leaves [ps/beta] alone.
    Where [verlet] raises (one of [beta], [1 + beta], [1 - step h px] is
    zero), the loop body, which works on arrays, raises nothing and leaves
    a non-finite [x] or [sigma]. *)
Theorem sym_map_body_is_verlet
    (x px y py sigma ps step h k1 k2 beta g_inv : R) :
  let p := Particle (Fin x) (Fin px) (Fin y) (Fin py) (Fin sigma)
                    (ndiv (Fin ps) (Fin beta)) in
  let c1 := nadd (nmul (Fin h) (Fin h)) (Fin k1) in
  let c2 := nadd (nmul (Fin h) (Fin k1)) (ndiv (Fin k2) (Fin 2)) in
  let c3 := nadd (nmul (Fin h) (Fin k1)) (Fin k2) in
  let c4 := ndiv (nmul (Fin g_inv) (Fin g_inv))
                 (nmul (Fin beta) (nadd (Fin 1) (Fin beta))) in
  let p' := sym_map_body (Fin step) (Fin h) (Fin k1) (Fin beta) c1 c2 c3 c4 p in
  match verlet (V6 (Fin x) (Fin px) (Fin y) (Fin py) (Fin sigma) (Fin ps))
               (Fin step) (Fin h) (Fin k1) (Fin k2) (Fin beta) (Fin g_inv) with
  | Some w =>
      p_x p' = v0 w /\ p_px p' = v1 w /\ p_y p' = v2 w /\ p_py p' = v3 w /\
      p_sigma p' = v4 w /\ p_ps_beta p' = ndiv (Fin ps) (Fin beta) /\
      defined (v0 w) /\ defined (v1 w) /\ defined (v2 w) /\ defined (v3 w) /\
      defined (v4 w) /\ v5 w = Fin ps
  | None =>
      (beta = 0 \/ 1 + beta = 0 \/ 1 - step * h * px = 0) /\
      (p_x p' = Undef \/ p_sigma p' = Undef)
  end.
Proof.
  cbv zeta.
  destruct (Req_dec_T beta 0) as [Hb|Hb].
  { rewrite verlet_raises by tauto. split; [tauto|]. left.
    unfold sym_map_body. cbv zeta. cbn [p_x p_px p_y p_py p_sigma p_ps_beta].
    rewrite (ndiv_by_zero _ beta) by exact Hb. undef_close. }
  destruct (Req_dec_T (1 - step * h * px) 0) as [Hd|Hd].
  { rewrite verlet_raises by tauto. split; [tauto|]. left.
    unfold sym_map_body. cbv zeta. cbn [p_x p_px p_y p_py p_sigma p_ps_beta].
    rewrite ndiv_Fin by exact Hb. cbn [nadd nsub nmul].
    apply ndiv_by_zero. exact Hd. }
  destruct (Req_dec_T (1 + beta) 0) as [Hb1|Hb1].
  { rewrite verlet_raises by tauto. split; [tauto|]. right.
    unfold sym_map_body. cbv zeta. cbn [p_x p_px p_y p_py p_sigma p_ps_beta].
    cbn [nadd nmul].
    rewrite (ndiv_by_zero _ (beta * (1 + beta))) by (rewrite Hb1; ring).
    undef_close. }
  assert (Hbb : beta * (1 + beta) <> 0).
  { intros H0. apply Rmult_integral in H0. tauto. }
  assert (H2b : 2 * beta <> 0) by lra.
  pose proof (verlet_body_value x px y py sigma ps step h k1 k2 beta g_inv Hb Hb1 Hd) as HB.
  cbv zeta in HB. unfold verlet. rewrite HB.
  cbn [raising vl_x1 vl_y1 vl_sigma_d vl_px_d vl_py_d v0 v1 v2 v3 v4 v5].
  cbv zeta. cbn [nadd nmul v0 v1 v2 v3 v4 v5].
  unfold sym_map_body. cbv zeta. cbn [p_x p_px p_y p_py p_sigma p_ps_beta].
  raise_norm ltac:(assumption || lra).
  repeat split; try (eexists; reflexivity);
    f_equal; field; repeat split; assumption.
Qed.

(** X11.  Without bending and sextupole strength and for a particle on
    momentum ([h = 0], [k2 = 0], [ps = 0]), with [beta] and [1 + beta] not
    zero, [verlet] returns, and the first-order stepper [verlet1O] gives
    the same real [x], [px], [y], [py] and the same [ps]. *)
Theorem verlet1O_agrees_with_verlet (x px y py sigma step k1 beta g_inv : R) :
  beta <> 0 -> 1 + beta <> 0 ->
  let v := V6 (Fin x) (Fin px) (Fin y) (Fin py) (Fin sigma) (Fin 0) in
  let a := verlet1O v (Fin step) (Fin 0) (Fin k1) (Fin 0) (Fin beta) (Fin g_inv) in
  exists b,
    verlet v (Fin step) (Fin 0) (Fin k1) (Fin 0) (Fin beta) (Fin g_inv) = Some b /\
    v0 a = v0 b /\ v1 a = v1 b /\ v2 a = v2 b /\ v3 a = v3 b /\ v5 a = v5 b /\
    defined (v0 a) /\ defined (v1 a) /\ defined (v2 a) /\ defined (v3 a).
Proof.
  intros Hb Hb1. cbv zeta. rewrite verlet1O_defined by assumption.
  assert (Hd : 1 - step * 0 * px <> 0) by lra.
  pose proof (verlet_body_value x px y py sigma 0 step 0 k1 0 beta g_inv Hb Hb1 Hd) as HB.
  cbv zeta in HB. unfold verlet. rewrite HB.
  cbn [raising vl_x1 vl_y1 vl_sigma_d vl_px_d vl_py_d v0 v1 v2 v3 v4 v5].
  cbv zeta. cbn [nadd nmul v0 v1 v2 v3 v4 v5].
  eexists. split; [reflexivity|]. cbn [v0 v1 v2 v3 v4 v5].
  repeat split; try (eexists; reflexivity);
    f_equal; field; repeat split; assumption.
Qed.

Lemma verlet1O_agrees_with_verlet_witness :
  let v := V6 (Fin 1) (Fin 2) (Fin 3) (Fin 4) (Fin 5) (Fin 0) in
  let a := verlet1O v (Fin 1) (Fin 0) (Fin 1) (Fin 0) (Fin 1) (Fin 0) in
  exists b,
    verlet v (Fin 1) (Fin 0) (Fin 1) (Fin 0) (Fin 1) (Fin 0) = Some b /\
    v0 a = v0 b /\ v1 a = v1 b /\ v2 a = v2 b /\ v3 a = v3 b /\ v5 a = v5 b /\
    defined (v0 a) /\ defined (v1 a) /\ defined (v2 a) /\ defined (v3 a).
Proof. refine (verlet1O_agrees_with_verlet 1 2 3 4 5 1 1 1 0 _ _); lra. Defined.

(** ** [sym_map] particle by particle *)

Lemma iter_map {A} (f : A -> A) (m : nat) (l : list A) :
  Nat.iter m (map f) l = map (Nat.iter m f) l.
Proof.
  induction m as [|m IH]; cbn [Nat.iter nat_rect].
  - symmetry. apply map_id.
  - change (nat_rect _ l (fun _ => map f) m) with (Nat.iter m (map f) l).
    rewrite IH, map_map. reflexivity.
Qed.

Lemma div6_mul n : (6 * n / 6 = n)%nat.
Proof. symmetry. apply Nat.div_unique with (r := 0%nat); lia. Qed.

Lemma index_split i : (i = 6 * (i / 6) + i mod 6 /\ i mod 6 < 6)%nat.
Proof. split; [apply Nat.div_mod_eq | apply Nat.mod_upper_bound; lia]. Qed.

Lemma length_slice6 k X n :
  length X = (6 * n)%nat -> (k < 6)%nat -> length (slice6 k X) = n.
Proof.
  intros HX Hk. unfold slice6. rewrite length_map, length_seq, HX.
  now apply slice6_count.
Qed.

Lemma nth_map_in_range {A B} (f : A -> B) (l : list A) i d d' :
  (i < length l)%nat -> nth i (map f l) d = f (nth i l d').
Proof.
  intros Hi. rewrite (nth_indep _ d (f d')) by (rewrite length_map; exact Hi).
  apply map_nth.
Qed.

Lemma assign6_chain (P : list particle) (X : list num) n i dP :
  length X = (6 * n)%nat -> length P = n -> (i < 6 * n)%nat ->
  nth_error
    (assign6 4 (map p_sigma P)
       (assign6 3 (map p_py P)
          (assign6 2 (map p_y P)
             (assign6 1 (map p_px P) (assign6 0 (map p_x P) X))))) i =
  Some (match (i mod 6)%nat with
        | 0%nat => p_x (nth (i / 6) P dP)
        | 1%nat => p_px (nth (i / 6) P dP)
        | 2%nat => p_y (nth (i / 6) P dP)
        | 3%nat => p_py (nth (i / 6) P dP)
        | 4%nat => p_sigma (nth (i / 6) P dP)
        | _ => nth i X (Fin 0)
        end).
Proof.
  intros HX HP Hi.
  destruct (index_split i) as [Ei Hk].
  assert (Hp : (i / 6 < length P)%nat) by lia.
  destruct (i mod 6)%nat as [|[|[|[|[|[|k]]]]]] eqn:Ek; try lia.
  - rewrite !nth_error_assign6_other by lia.
    rewrite nth_error_assign6_same by (rewrite ?length_assign6; assumption || lia).
    f_equal. now apply nth_map_in_range.
  - rewrite !nth_error_assign6_other by lia.
    rewrite nth_error_assign6_same by (rewrite ?length_assign6; assumption || lia).
    f_equal. now apply nth_map_in_range.
  - rewrite !nth_error_assign6_other by lia.
    rewrite nth_error_assign6_same by (rewrite ?length_assign6; assumption || lia).
    f_equal. now apply nth_map_in_range.
  - rewrite !nth_error_assign6_other by lia.
    rewrite nth_error_assign6_same by (rewrite ?length_assign6; assumption || lia).
    f_equal. now apply nth_map_in_range.
  - rewrite nth_error_assign6_same by (rewrite ?length_assign6; assumption || lia).
    f_equal. now apply nth_map_in_range.
  - rewrite !nth_error_assign6_other by lia.
    apply nth_error_nth'. lia.
Qed.

Section SymMap.

Variable m_e_GeV : R.

Lemma sym_map_particlewise z X h k1 k2 energy n i :
  length X = (6 * n)%nat -> (i < 6 * n)%nat ->
  nth_error (sym_map m_e_GeV z X h k1 k2 energy) i =
  Some (coordinate (sym_map_particle m_e_GeV z h k1 k2 energy (particle_at X (i / 6)))
                   (i mod 6)).
Proof.
  intros HX Hi.
  destruct (index_split i) as [Ei Hk].
  assert (Hp : (i / 6 < n)%nat) by lia.
  assert (HXi : nth_error X i = Some (coordinate (particle_at X (i / 6)) (i mod 6))).
  { rewrite (nth_error_nth' X (Fin 0)) by lia. f_equal. rewrite Ei at 1.
    unfold particle_at, coordinate.
    destruct (i mod 6)%nat as [|[|[|[|[|[|k]]]]]]; try lia;
      cbn [v0 v1 v2 v3 v4 v5]; rewrite ?Nat.add_0_r; reflexivity. }
  unfold sym_map, sym_map_particle.
  destruct (neqb (sym_map_step0 z h k1 k2) (Fin 0)); [exact HXi|].
  cbv zeta. rewrite iter_map.
  rewrite !(length_slice6 0 X n) by (assumption || lia).
  rewrite (assign6_chain _ X n i (Particle Undef Undef Undef Undef Undef Undef))
    by (rewrite ?length_map, ?length_seq; assumption || reflexivity).
  f_equal.
  rewrite (nth_map_in_range _ _ _ _ (Particle Undef Undef Undef Undef Undef Undef))
    by (rewrite ?length_map, ?length_seq; exact Hp).
  rewrite nth_map_seq by exact Hp.
  rewrite !(nth_slice6 _ X n (i / 6)) by (assumption || lia).
  rewrite Nat.add_0_r.
  unfold particle_at, coordinate. cbn [v0 v1 v2 v3 v4 v5].
  destruct (i mod 6)%nat as [|[|[|[|[|[|k]]]]]]; try lia; try reflexivity.
  rewrite Ei at 1. 
  rewrite (proj2 (divmod6 (i / 6) 5 ltac:(lia))) || idtac.
  reflexivity.
Qed.

End SymMap.

Lemma particle_at_app_l X Y n p :
  length X = (6 * n)%nat -> (p < n)%nat ->
  particle_at (X ++ Y) p = particle_at X p.
Proof.
  intros HX Hp. unfold particle_at.
  rewrite !app_nth1 by lia. reflexivity.
Qed.

Lemma particle_at_app_r X Y n p :
  length X = (6 * n)%nat ->
  particle_at (X ++ Y) (n + p) = particle_at Y p.
Proof.
  intros HX. unfold particle_at.
  replace (6 * (n + p))%nat with (length X + 6 * p)%nat by lia.
  rewrite <- !Nat.add_assoc, !app_nth2_plus. reflexivity.
Qed.

(** X15.  Particles do not interact in [sym_map]: the map of two
    ensembles laid end to end is the two maps laid end to end. *)
Theorem sym_map_app (m_e_GeV z : R) (X Y : list num) (h k1 k2 energy : R) (n m : nat) :
  length X = (6 * n)%nat -> length Y = (6 * m)%nat ->
  sym_map m_e_GeV z (X ++ Y) h k1 k2 energy =
  sym_map m_e_GeV z X h k1 k2 energy ++ sym_map m_e_GeV z Y h k1 k2 energy.
Proof.
  intros HX HY.
  assert (HXY : length (X ++ Y) = (6 * (n + m))%nat) by (rewrite length_app; lia).
  apply nth_error_ext. intros i.
  destruct (Nat.lt_ge_cases i (6 * (n + m))) as [Hi|Hi].
  - rewrite (sym_map_particlewise _ _ _ _ _ _ _ (n + m) i HXY Hi).
    destruct (Nat.lt_ge_cases i (6 * n)) as [Hin|Hin].
    + rewrite nth_error_app1 by (rewrite length_sym_map; lia).
      rewrite (sym_map_particlewise _ _ _ _ _ _ _ n i HX Hin).
      destruct (index_split i) as [Ei Hk].
      rewrite (particle_at_app_l X Y n) by (assumption || lia). reflexivity.
    + rewrite nth_error_app2 by (rewrite length_sym_map; lia).
      rewrite length_sym_map, HX.
      rewrite (sym_map_particlewise _ _ _ _ _ _ _ m (i - 6 * n) HY) by lia.
      replace i with (6 * n + (i - 6 * n))%nat at 1 2 by lia.
      set (j := (i - 6 * n)%nat).
      assert (Hd : ((6 * n + j) / 6 = n + j / 6)%nat).
      { rewrite (Nat.mul_comm 6 n), Nat.add_comm, Nat.div_add by lia. lia. }
      assert (Hm : ((6 * n + j) mod 6 = j mod 6)%nat).
      { rewrite (Nat.mul_comm 6 n), Nat.add_comm, Nat.Div0.mod_add. reflexivity. }
      rewrite Hd, Hm, (particle_at_app_r X Y n) by assumption. reflexivity.
  - assert (H1 : nth_error (sym_map m_e_GeV z (X ++ Y) h k1 k2 energy) i = None)
      by (apply nth_error_None; rewrite length_sym_map; lia).
    assert (H2 : nth_error (sym_map m_e_GeV z X h k1 k2 energy
                            ++ sym_map m_e_GeV z Y h k1 k2 energy) i = None)
      by (apply nth_error_None; rewrite length_app, !length_sym_map; lia).
    congruence.
Qed.

Lemma sym_map_app_witness :
  sym_map 0.000511 1 ([Fin 1; Fin 2; Fin 3; Fin 4; Fin 5; Fin 6]
                      ++ [Fin 6; Fin 5; Fin 4; Fin 3; Fin 2; Fin 1]) 1 0 0 0 =
  sym_map 0.000511 1 [Fin 1; Fin 2; Fin 3; Fin 4; Fin 5; Fin 6] 1 0 0 0
  ++ sym_map 0.000511 1 [Fin 6; Fin 5; Fin 4; Fin 3; Fin 2; Fin 1] 1 0 0 0.
Proof.
  apply (sym_map_app 0.000511 1 [Fin 1; Fin 2; Fin 3; Fin 4; Fin 5; Fin 6]
           [Fin 6; Fin 5; Fin 4; Fin 3; Fin 2; Fin 1] 1 0 0 0 1 1); reflexivity.
Defined.

Lemma sym_map_step0_zero h k1 k2 : sym_map_step0 0 h k1 k2 = Fin 0.
Proof.
  unfold sym_map_step0, nneqb. cbn [neqb].
  destruct (Reqb h 0), (Reqb k1 0), (Reqb k2 0); cbn [negb orb ngtb];
    match goal with |- context [Rltb ?a ?b] => destruct (Rltb_spec a b) end;
    try reflexivity; exfalso; lra.
Qed.

(** X12.  A segment of length zero is the identity: [sym_map] returns the
    ensemble it was given, whatever the strengths and the energy, and
    whether or not the entries are defined. *)
Theorem sym_map_zero_length (m_e_GeV : R) (X : list num) (h k1 k2 energy : R) :
  sym_map m_e_GeV 0 X h k1 k2 energy = X.
Proof.
  unfold sym_map. rewrite sym_map_step0_zero. cbn [neqb]. rewrite Reqb_refl.
  reflexivity.
Qed.

Lemma sym_map_single_step z h k1 k2 :
  z <> 0 -> sym_map_step0 z h k1 k2 = Fin z ->
  sym_map_iterations z h k1 k2 = 1%nat /\ sym_map_step z h k1 k2 = Fin z.
Proof.
  intros Hz H0.
  assert (Ha : sym_map_z_array z h k1 k2 =
               [nadd (nmul (Fin (INR 0)) (ndiv (nsub (Fin z) (Fin 0)) (Fin (INR 1)))) (Fin 0);
                nadd (nmul (Fin (INR 1)) (ndiv (nsub (Fin z) (Fin 0)) (Fin (INR 1)))) (Fin 0)]).
  { unfold sym_map_z_array. rewrite H0. rewrite ndiv_Fin by assumption.
    replace (z / z) with 1 by (field; assumption).
    cbn [nint]. unfold Rtrunc. destruct (Rleb_spec 0 1); [|exfalso; lra].
    rewrite <- (Int_part_spec 1 1) by lra. reflexivity. }
  unfold sym_map_iterations, sym_map_step. rewrite Ha. split; [reflexivity|].
  cbn [nth INR nsub]. rewrite ndiv_Fin by lra. cbn [nadd nmul nsub].
  f_equal. field.
Qed.

Lemma sym_map_step0_negative z h k1 k2 :
  z < 0 -> sym_map_step0 z h k1 k2 = Fin z.
Proof.
  intros Hz. unfold sym_map_step0, nneqb. cbn [neqb].
  destruct (Reqb h 0), (Reqb k1 0), (Reqb k2 0); cbn [negb orb ngtb];
    match goal with |- context [Rltb ?a ?b] => destruct (Rltb_spec a b) end;
    try reflexivity; exfalso; lra.
Qed.

Lemma sym_map_step0_drift z : sym_map_step0 z 0 0 0 = Fin z.
Proof.
  unfold sym_map_step0, nneqb. cbn [neqb]. rewrite Reqb_refl. cbn [negb orb ngtb].
  destruct (Rltb_spec z z); [exfalso; lra | reflexivity].
Qed.

(** X13.  A negative length is taken in one step: for [z < 0] the step
    that [sym_map] first chooses is [z] whatever the strengths (0.005 is
    above [z] and is clamped to it), the loop runs once and its step is
    [z]. *)
Theorem sym_map_negative_length (z h k1 k2 : R) :
  z < 0 ->
  sym_map_step0 z h k1 k2 = Fin z /\
  sym_map_iterations z h k1 k2 = 1%nat /\
  sym_map_step z h k1 k2 = Fin z.
Proof.
  intros Hz.
  pose proof (sym_map_step0_negative z h k1 k2 Hz) as H0.
  split; [exact H0|].
  apply sym_map_single_step; [lra | exact H0].
Qed.

Lemma sym_map_negative_length_witness :
  sym_map_step0 (-1) 1 0 0 = Fin (-1) /\
  sym_map_iterations (-1) 1 0 0 = 1%nat /\
  sym_map_step (-1) 1 0 0 = Fin (-1).
Proof. apply (sym_map_negative_length (-1) 1 0 0). lra. Defined.

Lemma sym_map_at (m_e_GeV z : R) (X : list num) (h k1 k2 energy : R) (n p : nat) :
  length X = (6 * n)%nat -> (p < n)%nat ->
  particle_at (sym_map m_e_GeV z X h k1 k2 energy) p =
  sym_map_particle m_e_GeV z h k1 k2 energy (particle_at X p).
Proof.
  intros HX Hp.
  assert (H : forall k, (k < 6)%nat ->
            nth (6 * p + k) (sym_map m_e_GeV z X h k1 k2 energy) (Fin 0) =
            coordinate (sym_map_particle m_e_GeV z h k1 k2 energy (particle_at X p)) k).
  { intros k Hk. apply nth_error_nth.
    rewrite (sym_map_particlewise m_e_GeV z X h k1 k2 energy n) by (assumption || lia).
    destruct (divmod6 p k Hk) as [-> ->]. reflexivity. }
  unfold particle_at at 1.
  rewrite <- (Nat.add_0_r (6 * p)) at 1.
  rewrite !H by lia. cbn [coordinate].
  destruct (sym_map_particle m_e_GeV z h k1 k2 energy (particle_at X p)). reflexivity.
Qed.

(** X14.  [sym_map] acts on each particle by itself: the six coordinates
    of particle [p] after the map are [sym_map_particle] of its six
    coordinates before, whatever the other particles are. *)
Theorem sym_map_particle_at (m_e_GeV z : R) (X : list num) (h k1 k2 energy : R) (n p : nat) :
  length X = (6 * n)%nat -> (p < n)%nat ->
  particle_at (sym_map m_e_GeV z X h k1 k2 energy) p =
  sym_map_particle m_e_GeV z h k1 k2 energy (particle_at X p).
Proof. apply sym_map_at. Qed.

Lemma sym_map_particle_at_witness :
  particle_at
    (sym_map 0.000511 1 [Fin 1; Fin 2; Fin 3; Fin 4; Fin 5; Fin 6; Fin 6; Fin 5; Fin 4; Fin 3; Fin 2; Fin 1] 1 2 3 1) 1 =
  sym_map_particle 0.000511 1 1 2 3 1
    (particle_at [Fin 1; Fin 2; Fin 3; Fin 4; Fin 5; Fin 6; Fin 6; Fin 5; Fin 4; Fin 3; Fin 2; Fin 1] 1).
Proof.
  apply (sym_map_particle_at 0.000511 1 [Fin 1; Fin 2; Fin 3; Fin 4; Fin 5; Fin 6; Fin 6; Fin 5; Fin 4; Fin 3; Fin 2; Fin 1] 1 2 3 1 2 1); [reflexivity | lia].
Defined.

(** X16.  A drift at zero energy in closed form.  With [h = k1 = k2 = 0]
    and [energy = 0] (so that [beta = 1], [g_inv = 0]) [sym_map] takes one
    step of the whole length [z] and moves a finite particle to
    [x + z px (1 - ps)], [y + z py (1 - ps)],
    [sigma - z (px^2 + py^2)/2], with [px], [py], [ps] as they were. *)
Theorem sym_map_drift (m_e_GeV z : R) (X : list num) (n p : nat)
    (x px y py sigma ps : R) :
  m_e_GeV <> 0 -> length X = (6 * n)%nat -> (p < n)%nat ->
  particle_at X p = V6 (Fin x) (Fin px) (Fin y) (Fin py) (Fin sigma) (Fin ps) ->
  particle_at (sym_map m_e_GeV z X 0 0 0 0) p =
  V6 (Fin (x + z * px * (1 - ps))) (Fin px)
     (Fin (y + z * py * (1 - ps))) (Fin py)
     (Fin (sigma - z * (px * px + py * py) / 2)) (Fin ps).
Proof.
  intros Hm HX Hp HXp.
  rewrite (sym_map_at _ _ _ _ _ _ _ n) by assumption.
  rewrite HXp. unfold sym_map_particle.
  rewrite sym_map_step0_drift. cbn [neqb].
  destruct (Reqb_spec z 0) as [->|Hz].
  - f_equal; f_equal; field.
  - destruct (sym_map_single_step z 0 0 0 Hz (sym_map_step0_drift z)) as [-> ->].
    cbv zeta. rewrite ndiv_Fin by assumption.
    replace (0 / m_e_GeV) with 0 by (field; assumption).
    unfold nneqb. cbn [neqb]. rewrite Reqb_refl. cbn [negb].
    cbn [Nat.iter nat_rect]. unfold sym_map_body. cbv zeta.
    cbn [v0 v1 v2 v3 v4 v5 p_x p_px p_y p_py p_sigma p_ps_beta].
    repeat (progress (cbn [nadd nsub nmul nneg]; rewrite ?ndiv_Fin by lra)).
    assert (Hd : 1 - z * 0 * px <> 0) by lra.
    repeat (progress (cbn [nadd nsub nmul nneg]; rewrite ?ndiv_Fin by (assumption || lra))).
    f_equal; f_equal; field; lra.
Qed.

Lemma sym_map_drift_witness :
  particle_at (sym_map 0.000511 2 [Fin 1; Fin 2; Fin 3; Fin 4; Fin 5; Fin 6] 0 0 0 0)
              0 =
  V6 (Fin (1 + 2 * 2 * (1 - 6))) (Fin 2)
     (Fin (3 + 2 * 4 * (1 - 6))) (Fin 4)
     (Fin (5 - 2 * (2 * 2 + 4 * 4) / 2)) (Fin 6).
Proof.
  apply (sym_map_drift 0.000511 2 [Fin 1; Fin 2; Fin 3; Fin 4; Fin 5; Fin 6] 1 0
           1 2 3 4 5 6); [lra | reflexivity | lia | reflexivity].
Defined.

(** ** The Runge-Kutta tracker *)

Section Tracker2.

Variables m_e_GeV m_e_eV speed_of_light : R.

Lemma rk_track_lookup y0 l N energy (mag_field : field) n :
  m_e_GeV <> 0 -> m_e_eV <> 0 -> energy <> 0 ->
  (2 <= N)%nat -> length y0 = (6 * n)%nat ->
  exists u,
    rk_track_in_field m_e_GeV m_e_eV speed_of_light y0 l N energy mag_field = Some u /\
    length u = (N * 9)%nat /\
    (forall r, (r < N * 9)%nat -> length (nth r u []) = n) /\
    (forall p i r, (p < n)%nat -> (i < N)%nat -> (r < 9)%nat ->
       entry u (i * 9 + r) p =
       nth r (rk_block mag_field
                (rk_state m_e_GeV m_e_eV speed_of_light y0 l N energy mag_field p i))
             (Fin 0)).
Proof.
  intros Hm Hv He HN Hlen.
  unfold rk_track_in_field.
  destruct (nth_error (linspace (Fin 0) (Fin l) N) 1) as [z1|] eqn:Ez.
  2:{ apply nth_error_None in Ez. rewrite length_linspace in Ez. lia. }
  assert (Hz1 : z1 = nth 1 (linspace (Fin 0) (Fin l) N) Undef)
    by (symmetry; now apply nth_error_nth).
  cbv zeta. rk_no_raise. rewrite length_linspace, Hlen, div6_mul.
  eexists. split; [reflexivity|].
  split; [now rewrite length_map, length_seq|].
  split.
  - intros r Hr. rewrite nth_map_seq by exact Hr.
    now rewrite !length_map, length_seq.
  - intros p i r Hp Hi Hr. unfold entry.
    rewrite nth_map_seq by nia.
    rewrite (nth_indep _ _ ((fun col => nth (i * 9 + r) col (Fin 0)) []))
      by (rewrite !length_map, length_seq; exact Hp).
    rewrite (map_nth (fun col => nth (i * 9 + r) col (Fin 0))).
    rewrite nth_map_seq by exact Hp.
    rewrite nth_rk_column by assumption.
    rewrite !(nth_slice6 _ y0 n p) by (assumption || lia).
    rewrite Nat.add_0_r, Hz1. reflexivity.
Qed.


Lemma rk_state_S y0 l N energy mag_field p i :
  rk_state m_e_GeV m_e_eV speed_of_light y0 l N energy mag_field p (S i) =
  rk_step (rk_dz l N) (rk_dzk m_e_GeV m_e_eV speed_of_light l N energy)
          (rk_dGamma2 m_e_GeV energy) mag_field
          (rk_state m_e_GeV m_e_eV speed_of_light y0 l N energy mag_field p i).
Proof. reflexivity. Qed.

Lemma rk_step_pz dz dzk dGamma2 (mag_field : field) s :
  let s' := rk_step dz dzk dGamma2 mag_field s in
  rk_pz s' = nsub dGamma2 (ndiv (nadd (nmul (rk_bx s') (rk_bx s'))
                                       (nmul (rk_by s') (rk_by s'))) (Fin 2)).
Proof.
  cbv zeta. unfold rk_step. cbv zeta.
  repeat match goal with
         | |- context [let '(_, _) := ?m in _] =>
             match m with
             | moments _ _ _ _ _ _ => destruct m as [? ?]
             | mag_field _ _ _ => destruct m as [[? ?] ?]
             end
         end.
  reflexivity.
Qed.

Lemma rk_state_pz y0 l N energy mag_field p i :
  let s := rk_state m_e_GeV m_e_eV speed_of_light y0 l N energy mag_field p i in
  rk_pz s = nsub (rk_dGamma2 m_e_GeV energy)
                 (ndiv (nadd (nmul (rk_bx s) (rk_bx s)) (nmul (rk_by s) (rk_by s)))
                       (Fin 2)).
Proof.
  cbv zeta. destruct i as [|i].
  - reflexivity.
  - rewrite rk_state_S. apply rk_step_pz.
Qed.

Lemma nth_rk_block F s :
  nth 0 (rk_block F s) (Fin 0) = rk_X s /\
  nth 1 (rk_block F s) (Fin 0) = rk_bx s /\
  nth 2 (rk_block F s) (Fin 0) = rk_Y s /\
  nth 3 (rk_block F s) (Fin 0) = rk_by s /\
  nth 4 (rk_block F s) (Fin 0) = rk_Z s /\
  nth 5 (rk_block F s) (Fin 0) = rk_pz s /\
  (nth 6 (rk_block F s) (Fin 0), nth 7 (rk_block F s) (Fin 0),
   nth 8 (rk_block F s) (Fin 0)) = F (rk_X s) (rk_Y s) (rk_Z s).
Proof.
  unfold rk_block. destruct (F _ _ _) as [[? ?] ?]. repeat split; reflexivity.
Qed.

End Tracker2.

(** X20.  When [rk_track_in_field] returns, and the shape of what it
    returns.  With non-zero constants, for an ensemble of [n] particles the
    function raises for fewer than two samples ([IndexError]) and for the
    energy 0 ([ZeroDivisionError]); otherwise it returns [9 N] rows of [n]
    numbers each, whatever the field returns. *)
Theorem rk_track_in_field_shape
    (m_e_GeV m_e_eV speed_of_light : R)
    (y0 : list num) (l : R) (N : nat) (energy : R) (mag_field : field) (n : nat) :
  m_e_GeV <> 0 -> m_e_eV <> 0 -> length y0 = (6 * n)%nat ->
  ((N < 2)%nat \/ energy = 0 ->
   rk_track_in_field m_e_GeV m_e_eV speed_of_light y0 l N energy mag_field = None) /\
  ((2 <= N)%nat -> energy <> 0 ->
   exists u,
     rk_track_in_field m_e_GeV m_e_eV speed_of_light y0 l N energy mag_field = Some u /\
     length u = (N * 9)%nat /\
     forall r, (r < N * 9)%nat -> length (nth r u []) = n).
Proof.
  intros Hm Hv Hlen. split.
  - intros H. apply rk_track_in_field_raises. tauto.
  - intros HN He.
    destruct (rk_track_lookup m_e_GeV m_e_eV speed_of_light y0 l N energy mag_field n
                Hm Hv He HN Hlen) as (u & Hu & Hl & Hr & _).
    exists u. repeat split; assumption.
Qed.

Lemma rk_track_in_field_shape_witness :
  ((3 < 2)%nat \/ 1 = 0 ->
   rk_track_in_field 0.000511 510998.9 299792458 [Fin 1; Fin 2; Fin 3; Fin 4; Fin 5; Fin 6; Fin 6; Fin 5; Fin 4; Fin 3; Fin 2; Fin 1] 1 3 1 zero_field = None) /\
  ((2 <= 3)%nat -> 1 <> 0 ->
   exists u,
     rk_track_in_field 0.000511 510998.9 299792458 [Fin 1; Fin 2; Fin 3; Fin 4; Fin 5; Fin 6; Fin 6; Fin 5; Fin 4; Fin 3; Fin 2; Fin 1] 1 3 1 zero_field = Some u /\
     length u = (3 * 9)%nat /\
     forall r, (r < 3 * 9)%nat -> length (nth r u []) = 2%nat).
Proof.
  apply (rk_track_in_field_shape 0.000511 510998.9 299792458 [Fin 1; Fin 2; Fin 3; Fin 4; Fin 5; Fin 6; Fin 6; Fin 5; Fin 4; Fin 3; Fin 2; Fin 1] 1 3 1 zero_field 2);
    [lra | lra | reflexivity].
Defined.

(** X21.  What the rows of a sample hold.  Where [rk_track_in_field]
    returns (at least two samples, non-zero energy and constants), at every
    sample [i] and for
    every particle [p], row [9 i + 5] is [dGamma2 - (bx^2 + by^2)/2] of the
    slopes stored in rows [9 i + 1] and [9 i + 3], and rows [9 i + 6],
    [9 i + 7], [9 i + 8] are the field at the position stored in rows
    [9 i], [9 i + 2], [9 i + 4]; this includes the last sample, which the
    loop does not reach. *)
Theorem rk_track_in_field_rows
    (m_e_GeV m_e_eV speed_of_light : R)
    (y0 : list num) (l : R) (N : nat) (energy : R) (mag_field : field) (n p i : nat) :
  m_e_GeV <> 0 -> m_e_eV <> 0 -> energy <> 0 ->
  (2 <= N)%nat -> length y0 = (6 * n)%nat -> (p < n)%nat -> (i < N)%nat ->
  exists u,
    rk_track_in_field m_e_GeV m_e_eV speed_of_light y0 l N energy mag_field = Some u /\
    entry u (i * 9 + 5) p =
      nsub (rk_dGamma2 m_e_GeV energy)
           (ndiv (nadd (nmul (entry u (i * 9 + 1) p) (entry u (i * 9 + 1) p))
                       (nmul (entry u (i * 9 + 3) p) (entry u (i * 9 + 3) p)))
                 (Fin 2)) /\
    (entry u (i * 9 + 6) p, entry u (i * 9 + 7) p, entry u (i * 9 + 8) p) =
      mag_field (entry u (i * 9 + 0) p) (entry u (i * 9 + 2) p) (entry u (i * 9 + 4) p).
Proof.
  intros Hm Hv He HN Hlen Hp Hi.
  destruct (rk_track_lookup m_e_GeV m_e_eV speed_of_light y0 l N energy mag_field n
              Hm Hv He HN Hlen) as (u & Hu & _ & _ & Hget).
  exists u. split; [exact Hu|].
  rewrite !Hget by (assumption || lia).
  set (s := rk_state m_e_GeV m_e_eV speed_of_light y0 l N energy mag_field p i).
  destruct (nth_rk_block mag_field s) as (-> & -> & -> & -> & -> & -> & ->).
  split; [apply rk_state_pz | reflexivity].
Qed.

Lemma rk_track_in_field_rows_witness :
  exists u,
    rk_track_in_field 0.000511 510998.9 299792458 [Fin 1; Fin 2; Fin 3; Fin 4; Fin 5; Fin 6; Fin 6; Fin 5; Fin 4; Fin 3; Fin 2; Fin 1] 1 3 1 zero_field = Some u /\
    entry u (2 * 9 + 5) 1 =
      nsub (rk_dGamma2 0.000511 1)
           (ndiv (nadd (nmul (entry u (2 * 9 + 1) 1) (entry u (2 * 9 + 1) 1))
                       (nmul (entry u (2 * 9 + 3) 1) (entry u (2 * 9 + 3) 1)))
                 (Fin 2)) /\
    (entry u (2 * 9 + 6) 1, entry u (2 * 9 + 7) 1, entry u (2 * 9 + 8) 1) =
      zero_field (entry u (2 * 9 + 0) 1) (entry u (2 * 9 + 2) 1) (entry u (2 * 9 + 4) 1).
Proof.
  apply (rk_track_in_field_rows 0.000511 510998.9 299792458 [Fin 1; Fin 2; Fin 3; Fin 4; Fin 5; Fin 6; Fin 6; Fin 5; Fin 4; Fin 3; Fin 2; Fin 1] 1 3 1 zero_field
           2 1 2); [lra | lra | lra | lia | reflexivity | lia | lia].
Defined.

Lemma linspace_nth l N i :
  (2 <= N)%nat -> (i < N)%nat ->
  nth i (linspace (Fin 0) (Fin l) N) Undef = Fin (INR i * ((l - 0) / INR (N - 1)) + 0).
Proof.
  intros HN Hi. unfold linspace.
  destruct N as [|[|N']]; try lia.
  rewrite nth_map_seq by exact Hi.
  assert (HI : INR (S (S N') - 1) <> 0).
  { apply not_0_INR. lia. }
  cbn [nsub]. rewrite ndiv_Fin by exact HI. reflexivity.
Qed.

Lemma rk_dz_eq l N :
  (2 <= N)%nat -> rk_dz l N = Fin (l / INR (N - 1)).
Proof.
  intros HN. unfold rk_dz. rewrite !linspace_nth by lia.
  cbn [nsub INR]. f_equal. field. apply not_0_INR. lia.
Qed.

Section Tracker3.

Variables m_e_GeV m_e_eV speed_of_light : R.

Lemma rk_step_Z dz dzk dGamma2 (mag_field : field) s :
  rk_Z (rk_step dz dzk dGamma2 mag_field s) = nadd (rk_Z s) dz.
Proof.
  unfold rk_step. cbv zeta.
  repeat match goal with
         | |- context [let '(_, _) := ?m in _] =>
             match m with
             | moments _ _ _ _ _ _ => destruct m as [? ?]
             | mag_field _ _ _ => destruct m as [[? ?] ?]
             end
         end.
  reflexivity.
Qed.

Lemma rk_state_Z y0 l N energy mag_field p i :
  (2 <= N)%nat ->
  rk_Z (rk_state m_e_GeV m_e_eV speed_of_light y0 l N energy mag_field p i) =
  Fin (INR i * (l / INR (N - 1))).
Proof.
  intros HN. induction i as [|i IH].
  - unfold rk_state, rk_initial. cbv zeta. cbn [Nat.iter nat_rect rk_Z].
    rewrite linspace_nth by lia. cbn [INR]. f_equal. field. apply not_0_INR. lia.
  - rewrite rk_state_S, rk_step_Z, IH, rk_dz_eq by exact HN.
    cbn [nadd]. f_equal. rewrite S_INR. ring.
Qed.

End Tracker3.

(** X22.  The longitudinal grid.  Where [rk_track_in_field] returns (at
    least two samples, non-zero energy and constants), row [9 i + 4] of the
    trajectory array holds [i l / (N - 1)] for every particle: the samples are equally
    spaced from 0 and the last one is at [l], whatever the field and the
    particles are. *)
Theorem rk_track_in_field_grid
    (m_e_GeV m_e_eV speed_of_light : R)
    (y0 : list num) (l : R) (N : nat) (energy : R) (mag_field : field) (n p i : nat) :
  m_e_GeV <> 0 -> m_e_eV <> 0 -> energy <> 0 ->
  (2 <= N)%nat -> length y0 = (6 * n)%nat -> (p < n)%nat -> (i < N)%nat ->
  exists u,
    rk_track_in_field m_e_GeV m_e_eV speed_of_light y0 l N energy mag_field = Some u /\
    entry u (i * 9 + 4) p = Fin (INR i * (l / INR (N - 1))) /\
    entry u ((N - 1) * 9 + 4) p = Fin l.
Proof.
  intros Hm Hv He HN Hlen Hp Hi.
  destruct (rk_track_lookup m_e_GeV m_e_eV speed_of_light y0 l N energy mag_field n
              Hm Hv He HN Hlen) as (u & Hu & _ & _ & Hget).
  exists u. split; [exact Hu|].
  rewrite !Hget by (assumption || lia).
  rewrite !(proj1 (proj2 (proj2 (proj2 (proj2 (nth_rk_block _ _)))))).
  rewrite !rk_state_Z by exact HN.
  split; [reflexivity|]. f_equal. field. apply not_0_INR. lia.
Qed.

Lemma rk_track_in_field_grid_witness :
  exists u,
    rk_track_in_field 0.000511 510998.9 299792458 [Fin 1; Fin 2; Fin 3; Fin 4; Fin 5; Fin 6; Fin 6; Fin 5; Fin 4; Fin 3; Fin 2; Fin 1] 1 3 1 nan_field = Some u /\
    entry u (1 * 9 + 4) 1 = Fin (INR 1 * (1 / INR (3 - 1))) /\
    entry u ((3 - 1) * 9 + 4) 1 = Fin 1.
Proof.
  apply (rk_track_in_field_grid 0.000511 510998.9 299792458 [Fin 1; Fin 2; Fin 3; Fin 4; Fin 5; Fin 6; Fin 6; Fin 5; Fin 4; Fin 3; Fin 2; Fin 1] 1 3 1 nan_field
           2 1 1); [lra | lra | lra | lia | reflexivity | lia | lia].
Defined.

Lemma nsqrt_Fin v : 0 <= v -> nsqrt (Fin v) = Fin (sqrt v).
Proof.
  intros Hv. unfold nsqrt. destruct (Rltb_spec v 0); [exfalso; lra | reflexivity].
Qed.

Lemma moments_zero_field (b c kappa : R) :
  moments (Fin b) (Fin c) (Fin 0) (Fin 0) (Fin 0) (Fin kappa) = (Fin 0, Fin 0).
Proof.
  unfold moments. cbv zeta. cbn [nadd nmul].
  rewrite nsqrt_Fin by nra. cbn [nadd nsub nmul nneg].
  f_equal; f_equal; ring.
Qed.

Lemma rk_step_zero_field (d kappa : R) (dGamma2 : num) (s : rkstate) (X bx Y by_ Z : R) :
  rk_X s = Fin X -> rk_bx s = Fin bx -> rk_Y s = Fin Y -> rk_by s = Fin by_ ->
  rk_Z s = Fin Z ->
  let s' := rk_step (Fin d) (Fin kappa) dGamma2 zero_field s in
  rk_X s' = Fin (X + bx * d) /\ rk_bx s' = Fin bx /\
  rk_Y s' = Fin (Y + by_ * d) /\ rk_by s' = Fin by_ /\ rk_Z s' = Fin (Z + d).
Proof.
  intros HX Hbx HY Hby HZ. cbv zeta.
  unfold rk_step, zero_field. cbv zeta.
  rewrite HX, Hbx, HY, Hby, HZ.
  repeat (progress (cbn [nadd nsub nmul nneg];
                    rewrite ?ndiv_Fin by lra;
                    rewrite ?moments_zero_field)).
  cbn [rk_X rk_bx rk_Y rk_by rk_Z].
  repeat split; f_equal; field.
Qed.

Section Tracker4.

Variables m_e_GeV m_e_eV speed_of_light : R.

Lemma rk_dzk_defined l N energy :
  (2 <= N)%nat -> m_e_GeV <> 0 -> m_e_eV <> 0 -> energy <> 0 ->
  exists kappa, rk_dzk m_e_GeV m_e_eV speed_of_light l N energy = Fin kappa.
Proof.
  intros HN Hm He Hen. unfold rk_dzk. cbv zeta. rewrite rk_dz_eq by exact HN.
  assert (Hg : energy / m_e_GeV <> 0).
  { intros H0. apply Hen.
    replace energy with (energy / m_e_GeV * m_e_GeV) by (field; assumption).
    rewrite H0. ring. }
  assert (Hd : m_e_eV * 1 * (energy / m_e_GeV) <> 0).
  { rewrite Rmult_1_r. apply Rmult_integral_contrapositive_currified; assumption. }
  repeat (progress (cbn [nadd nsub nmul nneg]; rewrite ?ndiv_Fin by assumption)).
  eexists. reflexivity.
Qed.

Lemma rk_state_zero_field y0 l N energy n p i (x bx y by_ sigma delta : R) :
  (2 <= N)%nat -> m_e_GeV <> 0 -> m_e_eV <> 0 -> energy <> 0 ->
  length y0 = (6 * n)%nat -> (p < n)%nat ->
  particle_at y0 p = V6 (Fin x) (Fin bx) (Fin y) (Fin by_) (Fin sigma) (Fin delta) ->
  let s := rk_state m_e_GeV m_e_eV speed_of_light y0 l N energy zero_field p i in
  rk_X s = Fin (x + bx * (INR i * (l / INR (N - 1)))) /\ rk_bx s = Fin bx /\
  rk_Y s = Fin (y + by_ * (INR i * (l / INR (N - 1)))) /\ rk_by s = Fin by_ /\
  rk_Z s = Fin (INR i * (l / INR (N - 1))).
Proof.
  intros HN Hm He Hen Hlen Hp Hpart. cbv zeta.
  destruct (rk_dzk_defined l N energy HN Hm He Hen) as [kappa Hk].
  pose proof (f_equal v0 Hpart) as H0. pose proof (f_equal v1 Hpart) as H1.
  pose proof (f_equal v2 Hpart) as H2. pose proof (f_equal v3 Hpart) as H3.
  unfold particle_at in H0, H1, H2, H3. cbn [v0 v1 v2 v3] in H0, H1, H2, H3.
  clear Hpart.
  induction i as [|i IH].
  - unfold rk_state, rk_initial. cbv zeta. cbn [Nat.iter nat_rect rk_X rk_bx rk_Y rk_by rk_Z].
    rewrite H0, H1, H2, H3, linspace_nth by lia. cbn [INR].
    repeat split; f_equal; field; apply not_0_INR; lia.
  - destruct IH as (I0 & I1 & I2 & I3 & I4).
    rewrite rk_state_S, Hk, rk_dz_eq by exact HN.
    destruct (rk_step_zero_field (l / INR (N - 1)) kappa (rk_dGamma2 m_e_GeV energy)
                _ _ _ _ _ _ I0 I1 I2 I3 I4) as (J0 & J1 & J2 & J3 & J4).
    rewrite J0, J1, J2, J3, J4, S_INR.
    repeat split; f_equal; ring.
Qed.

End Tracker4.

(** X23.  In a field that vanishes everywhere [rk_field] is the straight
    line.  For a finite particle, at least two samples and non-zero
    [energy], [m_e_GeV] and [m_e_eV], the particle leaves with
    [x + l bx], [y + l by] and its slopes, path-length lag and momentum
    deviation unchanged, for every number of samples. *)
Theorem rk_field_zero_field
    (m_e_GeV m_e_eV speed_of_light : R)
    (y0 : list num) (l : R) (N : nat) (energy : R) (n p : nat)
    (x bx y by_ sigma delta : R) :
  (2 <= N)%nat -> m_e_GeV <> 0 -> m_e_eV <> 0 -> energy <> 0 ->
  length y0 = (6 * n)%nat -> (p < n)%nat ->
  particle_at y0 p = V6 (Fin x) (Fin bx) (Fin y) (Fin by_) (Fin sigma) (Fin delta) ->
  exists y0',
    rk_field m_e_GeV m_e_eV speed_of_light y0 l N energy zero_field = Some y0' /\
    particle_at y0' p =
      V6 (Fin (x + l * bx)) (Fin bx) (Fin (y + l * by_)) (Fin by_)
         (Fin sigma) (Fin delta).
Proof.
  intros HN Hm He Hen Hlen Hp Hpart.
  destruct (rk_track_lookup m_e_GeV m_e_eV speed_of_light y0 l N energy zero_field n
              Hm He Hen HN Hlen) as (u & Hu & Hlu & Hrow & Hget).
  unfold rk_field. rewrite Hu. cbv zeta. eexists. split; [reflexivity|].
  pose proof (rk_state_zero_field m_e_GeV m_e_eV speed_of_light y0 l N energy n p (N - 1)
                x bx y by_ sigma delta HN Hm He Hen Hlen Hp Hpart) as HS.
  cbv zeta in HS. destruct HS as (S0 & S1 & S2 & S3 & _).
  assert (HNl : INR (N - 1) * (l / INR (N - 1)) = l).
  { field. apply not_0_INR. lia. }
  assert (Hrowp : forall r, (r < 4)%nat ->
            nth p (nth ((N - 1) * 9 + r) u []) (Fin 0) =
            nth r (rk_block zero_field
                     (rk_state m_e_GeV m_e_eV speed_of_light y0 l N energy zero_field p (N - 1)))
                (Fin 0)).
  { intros r Hr. apply (Hget p (N - 1)%nat r); lia. }
  destruct (nth_rk_block zero_field
              (rk_state m_e_GeV m_e_eV speed_of_light y0 l N energy zero_field p (N - 1)))
    as (B0 & B1 & B2 & B3 & _).
  pose proof (f_equal v4 Hpart) as H4. pose proof (f_equal v5 Hpart) as H5.
  unfold particle_at in H4, H5. cbn [v4 v5] in H4, H5.
  assert (Hget' : forall k, (k < 6)%nat ->
     nth (6 * p + k)
       (assign6 3 (nth ((N - 1) * 9 + 3) u [])
          (assign6 2 (nth ((N - 1) * 9 + 2) u [])
             (assign6 1 (nth ((N - 1) * 9 + 1) u [])
                (assign6 0 (nth ((N - 1) * 9 + 0) u []) y0)))) (Fin 0) =
     match k with
     | 0 => Fin (x + l * bx) | 1 => Fin bx | 2 => Fin (y + l * by_) | 3 => Fin by_
     | _ => nth (6 * p + k) y0 (Fin 0)
     end%nat).
  { intros k Hk. apply nth_error_nth.
    destruct (divmod6 p k Hk) as [Hd Hmd].
    destruct k as [|[|[|[|[|[|k]]]]]]; try lia.
    - rewrite !nth_error_assign6_other by lia.
      rewrite nth_error_assign6_same by (rewrite ?length_assign6; lia).
      rewrite Hd, (nth_indep _ _ (Fin 0)) by (rewrite Hrow; lia).
      rewrite Hrowp, B0, S0 by lia. do 2 f_equal. rewrite HNl. ring.
    - rewrite !nth_error_assign6_other by lia.
      rewrite nth_error_assign6_same by (rewrite ?length_assign6; lia).
      rewrite Hd, (nth_indep _ _ (Fin 0)) by (rewrite Hrow; lia).
      rewrite Hrowp, B1, S1 by lia. reflexivity.
    - rewrite !nth_error_assign6_other by lia.
      rewrite nth_error_assign6_same by (rewrite ?length_assign6; lia).
      rewrite Hd, (nth_indep _ _ (Fin 0)) by (rewrite Hrow; lia).
      rewrite Hrowp, B2, S2 by lia. do 2 f_equal. rewrite HNl. ring.
    - rewrite nth_error_assign6_same by (rewrite ?length_assign6; lia).
      rewrite Hd, (nth_indep _ _ (Fin 0)) by (rewrite Hrow; lia).
      rewrite Hrowp, B3, S3 by lia. reflexivity.
    - rewrite !nth_error_assign6_other by lia. apply nth_error_nth'. lia.
    - rewrite !nth_error_assign6_other by lia. apply nth_error_nth'. lia. }
  unfold particle_at.
  rewrite <- (Nat.add_0_r (6 * p)) at 1.
  rewrite !Hget' by lia. rewrite H4, H5. reflexivity.
Qed.

Lemma rk_field_zero_field_witness :
  exists y0',
    rk_field 0.000511 510998.9 299792458 [Fin 1; Fin 2; Fin 3; Fin 4; Fin 5; Fin 6] 3 2 1 zero_field = Some y0' /\
    particle_at y0' 0 =
      V6 (Fin (1 + 3 * 2)) (Fin 2) (Fin (3 + 3 * 4)) (Fin 4) (Fin 5) (Fin 6).
Proof.
  apply (rk_field_zero_field 0.000511 510998.9 299792458 [Fin 1; Fin 2; Fin 3; Fin 4; Fin 5; Fin 6] 3 2 1 1 0
           1 2 3 4 5 6); [lia | lra | lra | lra | reflexivity | lia | reflexivity].
Defined.

(** ** The increments of the slopes *)

Lemma moments_Fin (bx by_ Bx By Bz dzk : R) :
  moments (Fin bx) (Fin by_) (Fin Bx) (Fin By) (Fin Bz) (Fin dzk) =
  (Fin (sqrt (1 + bx * bx + by_ * by_) * dzk
        * (by_ * Bz - By * (1 + bx * bx) + bx * by_ * Bx)),
   Fin (- (sqrt (1 + bx * bx + by_ * by_) * dzk)
        * (bx * Bz - Bx * (1 + by_ * by_) + bx * by_ * By))).
Proof.
  unfold moments. cbv zeta. cbn [nadd nmul].
  rewrite nsqrt_Fin by nra. reflexivity.
Qed.

(** X17.  [moments] has a value for all finite arguments: the square root
    it takes is of [1 + bx^2 + by^2], which is never negative. *)
Theorem moments_defined (bx by_ Bx By Bz dzk : R) :
  defined (fst (moments (Fin bx) (Fin by_) (Fin Bx) (Fin By) (Fin Bz) (Fin dzk))) /\
  defined (snd (moments (Fin bx) (Fin by_) (Fin Bx) (Fin By) (Fin Bz) (Fin dzk))).
Proof. rewrite moments_Fin. split; eexists; reflexivity. Qed.

(** X18.  [moments] treats the two transverse planes alike up to the sign
    of the rotation: exchanging the slopes and the transverse field
    components exchanges the two results and changes their signs. *)
Theorem moments_swap (bx by_ Bx By Bz dzk : R) :
  snd (moments (Fin bx) (Fin by_) (Fin Bx) (Fin By) (Fin Bz) (Fin dzk)) =
  nneg (fst (moments (Fin by_) (Fin bx) (Fin By) (Fin Bx) (Fin Bz) (Fin dzk))) /\
  fst (moments (Fin bx) (Fin by_) (Fin Bx) (Fin By) (Fin Bz) (Fin dzk)) =
  nneg (snd (moments (Fin by_) (Fin bx) (Fin By) (Fin Bx) (Fin Bz) (Fin dzk))).
Proof.
  rewrite !moments_Fin. cbn [fst snd nneg].
  replace (1 + by_ * by_ + bx * bx) with (1 + bx * bx + by_ * by_) by ring.
  split; f_equal; ring.
Qed.

(** X19.  [moments] is linear in its last argument: with [dzk = dz k] the
    two results are [dz] times the results for [k]. *)
Theorem moments_scale (bx by_ Bx By Bz dz k : R) :
  moments (Fin bx) (Fin by_) (Fin Bx) (Fin By) (Fin Bz) (Fin (dz * k)) =
  (nmul (Fin dz) (fst (moments (Fin bx) (Fin by_) (Fin Bx) (Fin By) (Fin Bz) (Fin k))),
   nmul (Fin dz) (snd (moments (Fin bx) (Fin by_) (Fin Bx) (Fin By) (Fin Bz) (Fin k)))).
Proof.
  rewrite !moments_Fin. cbn [fst snd nmul]. f_equal; f_equal; ring.
Qed.

(** ** The undulator tracker *)

Lemma rk_weights (a b c d : num) :
  nadd (nadd (nadd a (nmul (Fin 2) b)) (nmul (Fin 2) c)) d =
  nadd (nadd a (nmul (Fin 2) (nadd b c))) d.
Proof.
  destruct a, b, c, d; cbn [nadd nmul]; try reflexivity.
  f_equal. ring.
Qed.

Lemma weave_step_rk_step dz dzk dGamma2 kx ky kz B0 s :
  weave_step dz dzk dGamma2 kx ky kz B0 s =
  rk_step dz dzk dGamma2 (fields kx ky kz B0) s.
Proof.
  unfold weave_step, rk_step.
  repeat match goal with
         | |- context [fields ?a ?b ?c ?d ?x ?y ?z] =>
           destruct (fields a b c d x y z) as [[? ?] ?]
         | |- context [moments ?a ?b ?c ?d ?e ?f] =>
           destruct (moments a b c d e f) as [? ?]
         end.
  rewrite !rk_weights. reflexivity.
Qed.

(** X26.  The loop body of the C code of [track_und_weave] is the loop
    body of [rk_track_in_field]: over the real numbers one pass gives the
    same six numbers as [rk_step] with the undulator field [fields], for
    every state and all parameters, defined or not.  The C code writes the
    weights as [kx1 + 2 kx2 + 2 kx3 + kx4], the Python code as
    [kx1 + 2 (kx2 + kx3) + kx4]. *)
Theorem weave_step_is_rk_step (dz dzk dGamma2 kx ky kz B0 : num) (s : rkstate) :
  weave_step dz dzk dGamma2 kx ky kz B0 s =
  rk_step dz dzk dGamma2 (fields kx ky kz B0) s.
Proof. apply weave_step_rk_step. Qed.

(** X24.  The undulator field in the mid-plane is vertical.  For
    [ky] not zero, at [y = 0] the C function [fields] gives [Bx = 0],
    [Bz = 0] and [By = B0 cos(kx x) cos(kz z)]. *)
Theorem fields_midplane (kx ky kz B0 x z : R) :
  ky <> 0 ->
  fields (Fin kx) (Fin ky) (Fin kz) (Fin B0) (Fin x) (Fin 0) (Fin z) =
  (Fin 0, Fin (B0 * cos (kx * x) * cos (kz * z)), Fin 0).
Proof.
  intros Hky. unfold fields.
  cbn [nmul nneg ncos nsin nsinh ncosh].
  rewrite !ndiv_Fin by exact Hky.
  cbn [nmul]. rewrite Rmult_0_r, sinh_0, cosh_0.
  f_equal; [f_equal|]; apply f_equal; ring.
Qed.

Lemma fields_midplane_witness :
  fields (Fin 0) (Fin 1) (Fin 1) (Fin 2) (Fin 3) (Fin 0) (Fin 4) =
  (Fin 0, Fin (2 * cos (0 * 3) * cos (1 * 4)), Fin 0).
Proof. apply (fields_midplane 0 1 1 2 3 4). lra. Defined.

(** X25.  The undulator field has no horizontal and no longitudinal
    component for [ky = 0]: [fields] divides by [ky], so [Bx] and [Bz]
    have no value at any finite point, while [By] is
    [B0 cos(kx x) cos(kz z)].  [track_und_weave] calls it with
    [ky = sqrt(kz^2 - kx^2)], which is zero for [kx = kz]. *)
Theorem fields_degenerate (kx kz B0 x y z : R) :
  let '(Bx, By, Bz) :=
    fields (Fin kx) (Fin 0) (Fin kz) (Fin B0) (Fin x) (Fin y) (Fin z) in
  Bx = Undef /\ By = Fin (B0 * cos (kx * x) * cos (kz * z)) /\ Bz = Undef.
Proof.
  unfold fields. cbn [nmul nneg ncos nsin nsinh ncosh].
  rewrite !ndiv_by_zero by reflexivity. cbn [nmul].
  repeat split. apply f_equal. rewrite Rmult_0_l, cosh_0. ring.
Qed.

Lemma nth_weave_column (ss : list rkstate) i r d :
  (i < length ss)%nat -> (r < 6)%nat ->
  nth (6 * i + r) (concat (map weave_block ss)) d =
  nth r (weave_block (nth i ss (RkState d d d d d d))) d.
Proof.
  revert i. induction ss as [|s ss IH]; intros i Hi Hr; [cbn in Hi; lia|].
  cbn [map concat]. destruct i as [|i].
  - rewrite Nat.mul_0_r, Nat.add_0_l. rewrite app_nth1 by (cbn; lia). reflexivity.
  - rewrite app_nth2 by (cbn; lia).
    replace (6 * S i + r - length (weave_block s))%nat with (6 * i + r)%nat
      by (cbn; lia).
    cbn [nth]. apply IH; [cbn in Hi; lia | exact Hr].
Qed.

Lemma length_weave_blocks (ss : list rkstate) :
  length (concat (map weave_block ss)) = (6 * length ss)%nat.
Proof.
  induction ss as [|s ss IH]; [reflexivity|].
  cbn [map concat]. rewrite length_app, IH. cbn. lia.
Qed.

Lemma nth_weave_slice N f s0 k i :
  (k < 6)%nat -> (i < N)%nat ->
  nth i (slice6 k (concat (map weave_block (rk_states N f s0)))) Undef =
  nth k (weave_block (Nat.iter i f s0)) (Fin 0).
Proof.
  intros Hk Hi.
  assert (Hlen : length (concat (map weave_block (rk_states N f s0))) = (6 * N)%nat)
    by (rewrite length_weave_blocks, length_rk_states; reflexivity).
  rewrite (nth_indep _ Undef (Fin 0))
    by (rewrite (length_slice6 k _ N) by assumption; exact Hi).
  rewrite (nth_slice6 k _ N) by assumption.
  rewrite nth_weave_column by (rewrite ?length_rk_states; assumption).
  rewrite nth_rk_states by exact Hi. reflexivity.
Qed.

Lemma gamma_on_momentum (g : num) : nmul g (nadd (Fin 1) (Fin 0)) = g.
Proof. destruct g; cbn [nadd nmul]; [apply f_equal; ring | reflexivity]. Qed.

(** X27.  The C tracker and the Python tracker agree where both return.
    With the constants that the C code has built in
    ([speed_of_light = 299792458], [m_e_eV = 0.510998910e+6]) and
    [m_e_GeV] not zero, for one particle with momentum deviation 0 and the
    grid [linspace(0, l, N)] of at least two samples: when the energy is
    not zero, the six arrays [x, px, y, py, z, pz] that [track_und_weave]
    returns are, sample by sample, rows [9 i .. 9 i + 5] of what
    [rk_track_in_field] returns for the field [fields] with
    [ky = sqrt(kz^2 - kx^2)] and [B0 = Kx m_e_eV kz / speed_of_light]; when
    the energy is 0, [rk_track_in_field] raises, while [track_und_weave]
    returns, its C code dividing doubles. *)
Theorem track_und_weave_agrees
    (m_e_GeV m_e_eV speed_of_light : R)
    (y0 : list num) (l : R) (N : nat) (kz kx Kx energy : R) :
  speed_of_light = 299792458 -> m_e_eV = 0.510998910e+6 -> m_e_GeV <> 0 ->
  (2 <= N)%nat -> length y0 = 6%nat -> nth 5 y0 Undef = Fin 0 ->
  let ky := nsqrt (nsub (nmul (Fin kz) (Fin kz)) (nmul (Fin kx) (Fin kx))) in
  let B0 := ndiv (nmul (nmul (Fin Kx) (Fin m_e_eV)) (Fin kz)) (Fin speed_of_light) in
  (energy <> 0 ->
   exists u x px y py z pz,
    rk_track_in_field m_e_GeV m_e_eV speed_of_light y0 l N energy
                      (fields (Fin kx) ky (Fin kz) B0) = Some u /\
    track_und_weave m_e_GeV m_e_eV speed_of_light y0 (linspace (Fin 0) (Fin l) N)
                    kz kx Kx energy = Some (x, px, y, py, z, pz) /\
    forall i, (i < N)%nat ->
      nth i x Undef = entry u (i * 9 + 0) 0 /\
      nth i px Undef = entry u (i * 9 + 1) 0 /\
      nth i y Undef = entry u (i * 9 + 2) 0 /\
      nth i py Undef = entry u (i * 9 + 3) 0 /\
      nth i z Undef = entry u (i * 9 + 4) 0 /\
      nth i pz Undef = entry u (i * 9 + 5) 0) /\
  (energy = 0 ->
   rk_track_in_field m_e_GeV m_e_eV speed_of_light y0 l N energy
                     (fields (Fin kx) ky (Fin kz) B0) = None /\
   exists r,
     track_und_weave m_e_GeV m_e_eV speed_of_light y0 (linspace (Fin 0) (Fin l) N)
                     kz kx Kx energy = Some r).
Proof.
  intros Hc Hm Hg HN Hy0 Hy5 ky B0.
  assert (Hc0 : speed_of_light <> 0) by (rewrite Hc; lra).
  assert (Hm0 : m_e_eV <> 0) by (rewrite Hm; lra).
  assert (Hz1 : nth_error (linspace (Fin 0) (Fin l) N) 1 =
                Some (nth 1 (linspace (Fin 0) (Fin l) N) Undef)).
  { apply nth_error_nth'. rewrite length_linspace. lia. }
  split.
  2:{ intros He. split; [apply rk_track_in_field_raises; tauto|].
      destruct y0 as [|a0 [|a1 [|a2 [|a3 [|a4 [|a5 [|? ?]]]]]]]; try discriminate Hy0.
      unfold track_und_weave. rewrite Hz1. cbn [nth_error nth].
      rewrite (pdiv_defined (Fin energy) (Fin m_e_GeV)) by (apply Fin_nonzero; assumption).
      cbn [raising].
      rewrite (pdiv_defined _ (Fin speed_of_light)) by (apply Fin_nonzero; assumption).
      cbn [raising]. eexists. reflexivity. }
  intros He.
  destruct (rk_track_lookup m_e_GeV m_e_eV speed_of_light y0 l N energy
              (fields (Fin kx) ky (Fin kz) B0) 1 Hg Hm0 He HN Hy0)
    as (u & Hu & _ & _ & Hent).
  destruct y0 as [|a0 [|a1 [|a2 [|a3 [|a4 [|a5 [|? ?]]]]]]]; try discriminate Hy0.
  cbn [nth] in Hy5. subst a5.
  unfold track_und_weave. rewrite Hz1. cbn [nth_error nth].
  rewrite (pdiv_defined (Fin energy) (Fin m_e_GeV)) by (apply Fin_nonzero; assumption).
  cbn [raising].
  rewrite (pdiv_defined _ (Fin speed_of_light)) by (apply Fin_nonzero; assumption).
  cbn [raising].
  cbv zeta. rewrite length_linspace.
  do 7 eexists. split; [exact Hu|]. split; [reflexivity|].
  intros i Hi.
  rewrite !nth_weave_slice by (assumption || lia).
  rewrite !Hent by lia.
  assert (Hstate :
    Nat.iter i
      (weave_step
         (nsub (nth 1 (linspace (Fin 0) (Fin l) N) Undef)
               (nth 0 (linspace (Fin 0) (Fin l) N) Undef))
         (nmul (nsub (nth 1 (linspace (Fin 0) (Fin l) N) Undef)
                     (nth 0 (linspace (Fin 0) (Fin l) N) Undef))
               (ndiv (nmul (Fin 1) (Fin 299792458))
                     (nmul (nmul (Fin 0.510998910e+6) (Fin 1))
                           (nmul (ndiv (Fin energy) (Fin m_e_GeV))
                                 (nadd (Fin 1) (Fin 0))))))
         (nsub (Fin 1)
               (ndiv (Fin 0.5)
                     (nmul (nmul (ndiv (Fin energy) (Fin m_e_GeV))
                                 (nadd (Fin 1) (Fin 0)))
                           (nmul (ndiv (Fin energy) (Fin m_e_GeV))
                                 (nadd (Fin 1) (Fin 0))))))
         (Fin kx) (nsqrt (nsub (nmul (Fin kz) (Fin kz)) (nmul (Fin kx) (Fin kx))))
         (Fin kz)
         (ndiv (nmul (nmul (Fin Kx) (Fin m_e_eV)) (Fin kz)) (Fin speed_of_light)))
      (RkState a0 a1 a2 a3 (Fin 0)
         (nsub (nsub (Fin 1)
                  (ndiv (Fin 0.5)
                     (nmul (nmul (ndiv (Fin energy) (Fin m_e_GeV))
                                 (nadd (Fin 1) (Fin 0)))
                           (nmul (ndiv (Fin energy) (Fin m_e_GeV))
                                 (nadd (Fin 1) (Fin 0))))))
               (ndiv (nadd (nmul a1 a1) (nmul a3 a3)) (Fin 2)))) =
    rk_state m_e_GeV m_e_eV speed_of_light [a0; a1; a2; a3; a4; Fin 0] l N energy
             (fields (Fin kx) ky (Fin kz) B0) 0 i).
  { unfold rk_state, rk_dzk, rk_dGamma2, rk_dz, rk_initial.
    cbn [nth Nat.mul Nat.add]. rewrite !gamma_on_momentum.
    rewrite (linspace_nth l N 0) by lia.
    replace (INR 0 * ((l - 0) / INR (N - 1)) + 0) with 0 by (cbn [INR]; ring).
    rewrite <- Hc, <- Hm. fold ky B0.
    induction i as [|i IH]; [reflexivity|].
    cbn [Nat.iter nat_rect]. rewrite weave_step_rk_step.
    f_equal. apply IH. lia. }
  rewrite Hstate.
  destruct (nth_rk_block (fields (Fin kx) ky (Fin kz) B0)
              (rk_state m_e_GeV m_e_eV speed_of_light [a0; a1; a2; a3; a4; Fin 0]
                        l N energy (fields (Fin kx) ky (Fin kz) B0) 0 i))
    as (H0 & H1 & H2 & H3 & H4 & H5 & _).
  rewrite H0, H1, H2, H3, H4, H5. cbn [weave_block nth].
  repeat split; reflexivity.
Qed.

Lemma track_und_weave_agrees_witness :
  let ky := nsqrt (nsub (nmul (Fin 2) (Fin 2)) (nmul (Fin 1) (Fin 1))) in
  let B0 := ndiv (nmul (nmul (Fin 3) (Fin 0.510998910e+6)) (Fin 2)) (Fin 299792458) in
  exists u x px y py z pz,
    rk_track_in_field 0.000511 0.510998910e+6 299792458 [Fin 1; Fin 2; Fin 3; Fin 4; Fin 5; Fin 0] 1 3 1
                      (fields (Fin 1) ky (Fin 2) B0) = Some u /\
    track_und_weave 0.000511 0.510998910e+6 299792458 [Fin 1; Fin 2; Fin 3; Fin 4; Fin 5; Fin 0]
                    (linspace (Fin 0) (Fin 1) 3) 2 1 3 1 = Some (x, px, y, py, z, pz) /\
    forall i, (i < 3)%nat ->
      nth i x Undef = entry u (i * 9 + 0) 0 /\
      nth i px Undef = entry u (i * 9 + 1) 0 /\
      nth i y Undef = entry u (i * 9 + 2) 0 /\
      nth i py Undef = entry u (i * 9 + 3) 0 /\
      nth i z Undef = entry u (i * 9 + 4) 0 /\
      nth i pz Undef = entry u (i * 9 + 5) 0.
Proof.
  apply (track_und_weave_agrees 0.000511 0.510998910e+6 299792458 [Fin 1; Fin 2; Fin 3; Fin 4; Fin 5; Fin 0] 1 3 2 1 3 1);
    [reflexivity | reflexivity | lra | lia | reflexivity | reflexivity | lra].
Defined.
